(** * Aether Gallery: the image adjustment pipeline and media classification

    A shallow embedding of [ImageEditor.tsx] (the adjustment state, its
    mutators, [applyFilters], [applySharpen], [handleSave]) and of the
    classification step of [Gallery.tsx] ([loadMedia] and the places that
    consume [MediaItem.type]).

    - JavaScript numbers are IEEE 754 binary64 values: they are Rocq's
      primitive [float]s, so every arithmetic step rounds as the program's
      does.  [rotation] only ever holds the integers produced by
      [handleRotate] from [0]; it is a [Z], and [%] is [Z.rem].
    - A [Uint8ClampedArray] is a [list Z] of bytes read with [!!] and
      written with [<[ _ := _ ]>]; a write converts with [ToUint8Clamp], a
      write out of range is dropped and a read out of range is [undefined],
      which arithmetic turns into [NaN].
    - The browser's 2D context (current transformation matrix, rasteriser,
      encoder) is the interface [Platform]; [RefPlatform] is one executable
      instance of it. *)

From Stdlib Require Import ZArith Lia List Bool String Ascii.
From Stdlib Require Import Floats.PrimFloat Floats.FloatOps Floats.SpecFloat.
From Stdlib Require Import Numbers.Cyclic.Int63.Uint63.
From Stdlib Require Import Numbers.DecimalString Numbers.DecimalN.
From stdpp Require Import base list.
Import ListNotations.

Local Open Scope Z_scope.

(** ** JavaScript numbers *)

Module JS.

Definition number := float.
#[global] Bind Scope float_scope with number.

Definition isNaN (x : number) : bool := negb (PrimFloat.eqb x x).

(** [Math.min] and [Math.max] of two arguments: [NaN] if either is, and
    [-0] ordered below [+0]. *)
Definition Math_min (a b : number) : number :=
  if isNaN a || isNaN b then nan
  else if PrimFloat.ltb a b then a
  else if PrimFloat.ltb b a then b
  else if PrimFloat.get_sign a then a else b.

Definition Math_max (a b : number) : number :=
  if isNaN a || isNaN b then nan
  else if PrimFloat.ltb a b then b
  else if PrimFloat.ltb b a then a
  else if PrimFloat.get_sign a then b else a.

Definition Math_PI : number := 0x1.921fb54442d18p+1%float.

(** An integer held in a number (exact below [2^53]). *)
Definition of_Z (z : Z) : number :=
  if z <? 0 then PrimFloat.opp (PrimFloat.of_uint63 (Uint63.of_Z (- z)))
  else PrimFloat.of_uint63 (Uint63.of_Z z).

(** [m * 2^e] rounded to the nearest integer, ties to even. *)
Definition round_half_even (m : positive) (e : Z) : Z :=
  if 0 <=? e then Z.pos m * 2 ^ e
  else
    let d := 2 ^ (- e) in
    let q := Z.pos m / d in
    let r := Z.pos m mod d in
    if 2 * r <? d then q
    else if d <? 2 * r then q + 1
    else if Z.even q then q else q + 1.

(** The conversion applied by a store into a [Uint8ClampedArray]. *)
Definition ToUint8Clamp (x : number) : Z :=
  match Prim2SF x with
  | S754_nan => 0
  | S754_zero _ => 0
  | S754_infinity s => if s then 0 else 255
  | S754_finite s m e => if s then 0 else Z.min 255 (round_half_even m e)
  end.

(** [for (i = lo; i < hi; i++)]: the values [i] takes, in order. *)
Definition range (lo hi : Z) : list Z :=
  map (fun i => lo + Z.of_nat i) (seq 0 (Z.to_nat (hi - lo))).

(** [a[idx]] on a typed array, used as a number. *)
Definition typed_get (a : list Z) (idx : Z) : number :=
  if idx <? 0 then nan
  else match a !! Z.to_nat idx with
       | Some b => of_Z b
       | None => nan
       end.

(** [a[idx] = v] on a [Uint8ClampedArray]. *)
Definition typed_set (a : list Z) (idx : Z) (v : number) : list Z :=
  if idx <? 0 then a else <[Z.to_nat idx := ToUint8Clamp v]> a.

(** [k[idx]] on an ordinary array of numbers. *)
Definition array_get (k : list number) (idx : Z) : number :=
  if idx <? 0 then nan
  else match k !! Z.to_nat idx with
       | Some w => w
       | None => nan
       end.

End JS.

(** ** The adjustment state and its mutators *)

Module Adjust.
Import JS.

Record AdjustmentState := mkAdjust {
  brightness : number;
  contrast : number;
  saturation : number;
  sharpness : number;
  rotation : Z;
  zoom : number
}.

(** The [useState] initial values. *)
Definition initial : AdjustmentState :=
  mkAdjust 100 100 100 0 0 1.

(** The sliders' [onValueChange] handlers: [(v) => setBrightness(v[0])]. *)
Definition setBrightness (v : number) (s : AdjustmentState) : AdjustmentState :=
  mkAdjust v (contrast s) (saturation s) (sharpness s) (rotation s) (zoom s).

Definition setContrast (v : number) (s : AdjustmentState) : AdjustmentState :=
  mkAdjust (brightness s) v (saturation s) (sharpness s) (rotation s) (zoom s).

Definition setSaturation (v : number) (s : AdjustmentState) : AdjustmentState :=
  mkAdjust (brightness s) (contrast s) v (sharpness s) (rotation s) (zoom s).

Definition setSharpness (v : number) (s : AdjustmentState) : AdjustmentState :=
  mkAdjust (brightness s) (contrast s) (saturation s) v (rotation s) (zoom s).

(** The [min]/[max] attributes of the four sliders. *)
Inductive slider := SBrightness | SContrast | SSaturation | SSharpness.

Definition slider_min (p : slider) : number := 0%float.

Definition slider_max (p : slider) : number :=
  match p with
  | SSharpness => 100%float
  | _ => 200%float
  end.

Definition slider_set (p : slider) : number -> AdjustmentState -> AdjustmentState :=
  match p with
  | SBrightness => setBrightness
  | SContrast => setContrast
  | SSaturation => setSaturation
  | SSharpness => setSharpness
  end.

Definition slider_get (p : slider) : AdjustmentState -> number :=
  match p with
  | SBrightness => brightness
  | SContrast => contrast
  | SSaturation => saturation
  | SSharpness => sharpness
  end.

(** Clamping to a closed interval, as the specification words it. *)
Definition clamp (lo hi x : number) : number := Math_min (Math_max x lo) hi.

Definition in_interval (lo hi x : number) : Prop :=
  PrimFloat.leb lo x = true /\ PrimFloat.leb x hi = true.

(** The declared domain of [rotation]. *)
Definition quarter_turns : list Z := [0; 90; 180; 270].

(** [setRotation((prev) => (prev + 90) % 360)] *)
Definition rotate_step (prev : Z) : Z := Z.rem (prev + 90) 360.

Definition handleRotate (s : AdjustmentState) : AdjustmentState :=
  mkAdjust (brightness s) (contrast s) (saturation s) (sharpness s)
           (rotate_step (rotation s)) (zoom s).

Definition zoom_delta : number := 0x1.999999999999ap-4%float.

(** [setZoom((prev) => Math.min(prev + 0.1, 3))] *)
Definition zoom_in_step (prev : number) : number :=
  Math_min (PrimFloat.add prev zoom_delta) 3%float.

(** [setZoom((prev) => Math.max(prev - 0.1, 0.5))] *)
Definition zoom_out_step (prev : number) : number :=
  Math_max (PrimFloat.sub prev zoom_delta) 0.5%float.

Definition handleZoomIn (s : AdjustmentState) : AdjustmentState :=
  mkAdjust (brightness s) (contrast s) (saturation s) (sharpness s)
           (rotation s) (zoom_in_step (zoom s)).

Definition handleZoomOut (s : AdjustmentState) : AdjustmentState :=
  mkAdjust (brightness s) (contrast s) (saturation s) (sharpness s)
           (rotation s) (zoom_out_step (zoom s)).

(** The two zoom buttons are the only way [zoom] changes. *)
Inductive zoom_reachable : number -> Prop :=
| zr_initial : zoom_reachable (zoom initial)
| zr_in z : zoom_reachable z -> zoom_reachable (zoom_in_step z)
| zr_out z : zoom_reachable z -> zoom_reachable (zoom_out_step z).

(** The doubles the zoom buttons can produce, found by closing [{1}] under
    both steps. *)
Definition index_of (x : number) (l : list number) : nat :=
  (fix go (l : list number) (i : nat) : nat :=
     match l with
     | [] => i
     | y :: l' => if PrimFloat.eqb x y then i else go l' (S i)
     end) l 0%nat.

Definition known (x : number) (l : list number) : bool :=
  Nat.ltb (index_of x l) (length l).

Fixpoint zoom_closure (fuel : nat) (seen pending : list number) : list number :=
  match fuel with
  | O => seen
  | S fuel' =>
      match pending with
      | [] => seen
      | z :: rest =>
          let fresh :=
            List.filter (fun v => negb (known v seen))
                   (if PrimFloat.eqb (zoom_in_step z) (zoom_out_step z)
                    then [zoom_in_step z]
                    else [zoom_in_step z; zoom_out_step z]) in
          zoom_closure fuel' (seen ++ fresh) (rest ++ fresh)
      end
  end.

Definition zoom_orbit : list number :=
  Eval vm_compute in zoom_closure 1000 [zoom initial] [zoom initial].

Definition zoom_ok (z : number) : bool :=
  PrimFloat.leb 0.5 z && PrimFloat.leb z 3%float.

End Adjust.

(** ** [applySharpen] *)

Module Sharpen.
Import JS.

Record ImageData := mkImageData {
  width : Z;
  height : Z;
  data : list Z
}.

(** What every [ImageData] object satisfies: positive dimensions, four
    bytes per pixel. *)
Definition wf_ImageData (d : ImageData) : Prop :=
  1 <= width d /\ 1 <= height d /\
  length (data d) = Z.to_nat (width d * height d * 4) /\
  Forall (fun b => 0 <= b <= 255) (data d).

(** [new ImageData(width, height)]: every byte 0.  The constructor raises
    on a zero dimension; [applySharpen] calls it with the dimensions of an
    existing [ImageData], which are positive. *)
Definition new_ImageData (w h : Z) : ImageData :=
  mkImageData w h (replicate (Z.to_nat (w * h * 4)) 0).

Definition kernel (amount : number) : list number :=
  [ 0%float;          (- amount)%float;        0%float;
    (- amount)%float; (1 + 4 * amount)%float;  (- amount)%float;
    0%float;          (- amount)%float;        0%float ].

(** The two innermost loops: [sum] after the nine updates
    [sum += data[idx] * kernel[kidx]]. *)
Definition convolve (dat : list Z) (w : Z) (k : list number) (y x c : Z) : number :=
  fold_left
    (fun sum ky =>
       fold_left
         (fun sum kx =>
            let idx := ((y + ky) * w + (x + kx)) * 4 + c in
            let kidx := (ky + 1) * 3 + (kx + 1) in
            (sum + typed_get dat idx * array_get k kidx)%float)
         (range (-1) (1 + 1)) sum)
    (range (-1) (1 + 1)) 0%float.

(** The body of the [x] loop: three colour channels, then alpha. *)
Definition sharpen_pixel (dat : list Z) (w : Z) (k : list number)
    (y x : Z) (out : list Z) : list Z :=
  let out :=
    fold_left
      (fun out c =>
         let sum := convolve dat w k y x c in
         let idx := (y * w + x) * 4 + c in
         typed_set out idx (Math_min 255 (Math_max 0 sum)))
      (range 0 3) out in
  let idx := (y * w + x) * 4 + 3 in
  typed_set out idx (typed_get dat idx).

Definition sharpen_row (dat : list Z) (w : Z) (k : list number)
    (y : Z) (out : list Z) : list Z :=
  fold_left (fun out x => sharpen_pixel dat w k y x out) (range 1 (w - 1)) out.

Definition applySharpen (imageData : ImageData) (amount : number) : ImageData :=
  let dat := data imageData in
  let w := width imageData in
  let h := height imageData in
  let output := new_ImageData w h in
  let k := kernel amount in
  mkImageData (width output) (height output)
    (fold_left (fun out y => sharpen_row dat w k y out)
               (range 1 (h - 1)) (data output)).

(** The specification's wording of the filter: a 3x3 convolution whose
    weight depends on the offset of the neighbour only. *)
Definition kernel_weight (k : number) (ky kx : Z) : number :=
  if (ky =? 0) && (kx =? 0) then (1 + 4 * k)%float
  else if (ky =? 0) || (kx =? 0) then (- k)%float
  else 0%float.

Definition sample (d : ImageData) (x y c : Z) : number :=
  typed_get (data d) ((y * width d + x) * 4 + c).

Definition neighbourhood : list (Z * Z) :=
  [ (-1, -1); (-1, 0); (-1, 1);
    (0, -1);  (0, 0);  (0, 1);
    (1, -1);  (1, 0);  (1, 1) ].

Definition convolution3x3 (weight : Z -> Z -> number) (d : ImageData)
    (x y c : Z) : number :=
  fold_left
    (fun acc o => (acc + sample d (x + snd o) (y + fst o) c * weight (fst o) (snd o))%float)
    neighbourhood 0%float.

(** A sample clamped to [0, 255] and stored as a byte. *)
Definition clamp_sample (v : number) : Z :=
  ToUint8Clamp (Math_min 255 (Math_max 0 v)).

(** The byte the loops store for channel [c] of pixel [(x, y)]. *)
Definition pixel_value (dat : list Z) (w : Z) (k : list number) (y x c : Z) : Z :=
  if c <? 3 then clamp_sample (convolve dat w k y x c)
  else ToUint8Clamp (typed_get dat ((y * w + x) * 4 + 3)).

(** Byte offset of channel [c] of pixel [(x, y)]. *)
Definition offset (d : ImageData) (x y c : Z) : nat :=
  Z.to_nat ((y * width d + x) * 4 + c).

Definition interior (d : ImageData) (x y : Z) : Prop :=
  1 <= x < width d - 1 /\ 1 <= y < height d - 1.

Definition on_border (d : ImageData) (x y : Z) : Prop :=
  0 <= x < width d /\ 0 <= y < height d /\
  (x = 0 \/ x = width d - 1 \/ y = 0 \/ y = height d - 1).

End Sharpen.

(** ** The canvas and the browser interface *)

Module Canvas.
Import JS Sharpen.

(** One function of the CSS [filter] property, with its percentage. *)
Inductive FilterFn :=
| Brightness (pct : number)
| Contrast (pct : number)
| Saturate (pct : number).

(** The value of [ctx.filter]; [[]] is [none]. *)
Definition Filter := list FilterFn.

(** A decoded [HTMLImageElement]. *)
Record HTMLImage := mkImage {
  img_width : Z;
  img_height : Z;
  img_pixels : list Z
}.

Inductive DOMException := IndexSizeError | SecurityError.

Inductive completion := Normal | Throws (e : DOMException).

Record Blob := mkBlob {
  blob_type : string;
  blob_bytes : list Z
}.

(** What the program takes from the browser: the algebra of the current
    transformation matrix, the rasteriser behind [drawImage] and the encoder
    behind [toBlob]. *)
Record Platform := mkPlatform {
  CTM : Type;
  ctm_identity : CTM;
  ctm_translate : number -> number -> CTM -> CTM;
  ctm_rotate : number -> CTM -> CTM;
  ctm_scale : number -> number -> CTM -> CTM;
  rasterize : CTM -> Filter -> HTMLImage -> ImageData -> list Z;
  encode : string -> ImageData -> option (list Z)
}.

Section Context2D.
Variable P : Platform.

(** The drawing state of the 2D context, with the stack of [save]. *)
Record Context := mkContext {
  ctm : CTM P;
  filter : Filter;
  saved : list (CTM P * Filter)
}.

Definition default_context : Context :=
  mkContext (ctm_identity P) [] [].

Record CanvasEl := mkCanvas {
  cv_width : Z;
  cv_height : Z;
  cv_pixels : list Z;
  cv_origin_clean : bool;
  cv_ctx : Context
}.

Definition blank (w h : Z) : list Z := replicate (Z.to_nat (w * h * 4)) 0.

(** The surface of a canvas as pixel data. *)
Definition surface (cv : CanvasEl) : ImageData :=
  mkImageData (cv_width cv) (cv_height cv) (cv_pixels cv).

(** A canvas element as mounted: 300 by 150, transparent. *)
Definition default_canvas : CanvasEl :=
  mkCanvas 300 150 (blank 300 150) true default_context.

(** [canvas.width = w] and [canvas.height = h]: the bitmap is replaced by a
    transparent one and the context returns to its default state. *)
Definition set_width (w : Z) (cv : CanvasEl) : CanvasEl :=
  mkCanvas w (cv_height cv) (blank w (cv_height cv)) true default_context.

Definition set_height (h : Z) (cv : CanvasEl) : CanvasEl :=
  mkCanvas (cv_width cv) h (blank (cv_width cv) h) true default_context.

(** [ctx.clearRect(0, 0, canvas.width, canvas.height)] *)
Definition clearRect (cv : CanvasEl) : CanvasEl :=
  mkCanvas (cv_width cv) (cv_height cv) (blank (cv_width cv) (cv_height cv))
           (cv_origin_clean cv) (cv_ctx cv).

Definition with_ctx (f : Context -> Context) (cv : CanvasEl) : CanvasEl :=
  mkCanvas (cv_width cv) (cv_height cv) (cv_pixels cv) (cv_origin_clean cv)
           (f (cv_ctx cv)).

Definition save : CanvasEl -> CanvasEl :=
  with_ctx (fun c => mkContext (ctm c) (filter c) ((ctm c, filter c) :: saved c)).

Definition restore : CanvasEl -> CanvasEl :=
  with_ctx (fun c =>
    match saved c with
    | [] => c
    | (m, f) :: rest => mkContext m f rest
    end).

Definition translate (tx ty : number) : CanvasEl -> CanvasEl :=
  with_ctx (fun c => mkContext (ctm_translate P tx ty (ctm c)) (filter c) (saved c)).

Definition rotate (angle : number) : CanvasEl -> CanvasEl :=
  with_ctx (fun c => mkContext (ctm_rotate P angle (ctm c)) (filter c) (saved c)).

Definition scale (sx sy : number) : CanvasEl -> CanvasEl :=
  with_ctx (fun c => mkContext (ctm_scale P sx sy (ctm c)) (filter c) (saved c)).

Definition set_filter (f : Filter) : CanvasEl -> CanvasEl :=
  with_ctx (fun c => mkContext (ctm c) f (saved c)).

(** [ctx.drawImage(image, 0, 0)].  The image was loaded with
    [crossOrigin = 'anonymous'], so drawing it leaves the canvas
    origin-clean. *)
Definition drawImage (image : HTMLImage) (cv : CanvasEl) : CanvasEl :=
  mkCanvas (cv_width cv) (cv_height cv)
           (rasterize P (ctm (cv_ctx cv)) (filter (cv_ctx cv)) image (surface cv))
           (cv_origin_clean cv) (cv_ctx cv).

(** [ctx.getImageData(0, 0, canvas.width, canvas.height)]: raises
    [IndexSizeError] when either dimension is 0. *)
Definition getImageData (cv : CanvasEl) : option ImageData :=
  if (cv_width cv =? 0) || (cv_height cv =? 0) then None
  else Some (surface cv).

(** [ctx.putImageData(d, 0, 0)] for pixel data of the size of the canvas:
    every pixel is replaced, whatever the transformation and the filter. *)
Definition putImageData (d : ImageData) (cv : CanvasEl) : CanvasEl :=
  mkCanvas (cv_width cv) (cv_height cv) (data d) (cv_origin_clean cv) (cv_ctx cv).

(** [canvas.toBlob(callback, type)]: the argument the callback receives, or
    the exception raised before it is scheduled. *)
Definition toBlob (cv : CanvasEl) (type : string) : DOMException + option Blob :=
  if negb (cv_origin_clean cv) then inl SecurityError
  else if (cv_width cv =? 0) || (cv_height cv =? 0) then inr None
  else match encode P type (surface cv) with
       | Some bytes => inr (Some (mkBlob type bytes))
       | None => inr None
       end.

End Context2D.

End Canvas.

(** ** The component [ImageEditor] *)

Module ImageEditor.
Import JS Adjust Sharpen Canvas.

Section Component.
Variable P : Platform.

Record Editor := mkEditor {
  image : option HTMLImage;
  canvasRef : option (CanvasEl P);
  adjust : AdjustmentState
}.

(** After mounting, before [img.onload]. *)
Definition mounted : Editor :=
  mkEditor None (Some (default_canvas P)) initial.

(** [img.onload = () => setImage(img)] *)
Definition setImage (img : HTMLImage) (ed : Editor) : Editor :=
  mkEditor (Some img) (canvasRef ed) (adjust ed).

Definition with_adjust (f : AdjustmentState -> AdjustmentState) (ed : Editor) : Editor :=
  mkEditor (image ed) (canvasRef ed) (f (adjust ed)).

(** [applyFilters] up to and including [ctx.drawImage(image, 0, 0)]. *)
Definition composite (a : AdjustmentState) (img : HTMLImage) (cv : CanvasEl P) : CanvasEl P :=
  let cv := set_width P (img_width img) cv in
  let cv := set_height P (img_height img) cv in
  let cv := clearRect P cv in
  let cv := save P cv in
  let cv := translate P (of_Z (cv_width P cv) / 2) (of_Z (cv_height P cv) / 2) cv in
  let cv := rotate P ((of_Z (rotation a) * Math_PI) / 180) cv in
  let cv := scale P (zoom a) (zoom a) cv in
  let cv := translate P (- of_Z (cv_width P cv) / 2) (- of_Z (cv_height P cv) / 2) cv in
  let cv := set_filter P [Brightness (brightness a); Contrast (contrast a);
                          Saturate (saturation a)] cv in
  drawImage P img cv.

(** [canvas.getContext('2d')] is not [null] on a canvas that is given no
    other kind of context, so the second guard never returns. *)
Definition applyFilters (ed : Editor) : Editor * completion :=
  match image ed, canvasRef ed with
  | Some img, Some cv =>
      let cv := composite (adjust ed) img cv in
      if (0 <? sharpness (adjust ed))%float then
        match getImageData P cv with
        | None => (mkEditor (image ed) (Some cv) (adjust ed), Throws IndexSizeError)
        | Some imageData =>
            let sharpened := applySharpen imageData (sharpness (adjust ed) / 100) in
            let cv := putImageData P sharpened cv in
            (mkEditor (image ed) (Some (restore P cv)) (adjust ed), Normal)
        end
      else (mkEditor (image ed) (Some (restore P cv)) (adjust ed), Normal)
  | _, _ => (ed, Normal)
  end.

(** The surface a render leaves on the canvas. *)
Definition rendered (ed : Editor) : option ImageData :=
  match canvasRef (fst (applyFilters ed)) with
  | Some cv => Some (surface P cv)
  | None => None
  end.

(** What [handleSave] does with the caller's [onSave]. *)
Inductive SaveOutcome :=
| SaveSkipped
| SaveNoBlob
| SaveDelivered (blob : Blob)
| SaveThrew (e : DOMException).

Definition handleSave (ed : Editor) : SaveOutcome :=
  match canvasRef ed with
  | None => SaveSkipped
  | Some cv =>
      match toBlob P cv "image/png" with
      | inl e => SaveThrew e
      | inr (Some blob) => SaveDelivered blob
      | inr None => SaveNoBlob
      end
  end.

End Component.

End ImageEditor.

(** ** A reference browser

    One executable [Platform]: the matrix algebra of the canvas
    specification in binary64, nearest-neighbour sampling through the
    inverse matrix, the filter functions of the CSS filter specification
    applied in order, and an encoder that keeps the bytes as they are.  It is
    used to run the pipeline on concrete images. *)

Module RefPlatform.
Import JS Sharpen Canvas.

Record DOMMatrix := mkMatrix {
  m_a : number; m_b : number;
  m_c : number; m_d : number;
  m_e : number; m_f : number
}.

Definition identity : DOMMatrix := mkMatrix 1 0 0 1 0 0.

Definition translate (tx ty : number) (m : DOMMatrix) : DOMMatrix :=
  mkMatrix (m_a m) (m_b m) (m_c m) (m_d m)
           (m_a m * tx + m_c m * ty + m_e m)
           (m_b m * tx + m_d m * ty + m_f m).

Definition scale (sx sy : number) (m : DOMMatrix) : DOMMatrix :=
  mkMatrix (m_a m * sx) (m_b m * sx) (m_c m * sy) (m_d m * sy) (m_e m) (m_f m).

(** Partial sums of the power series of cosine and sine. *)
Fixpoint series (n : nat) (term x2 k acc : number) : number :=
  match n with
  | O => acc
  | S n' =>
      let term' := (- term * x2 / ((k + 1) * (k + 2)))%float in
      series n' term' x2 (k + 2)%float (acc + term')%float
  end.

Definition cos (x : number) : number := series 24 1 (x * x) 0 1.

Definition sin (x : number) : number := series 24 x (x * x) 1 x.

Definition rotate (angle : number) (m : DOMMatrix) : DOMMatrix :=
  let co := cos angle in
  let si := sin angle in
  mkMatrix (m_a m * co + m_c m * si) (m_b m * co + m_d m * si)
           (m_c m * co - m_a m * si) (m_d m * co - m_b m * si)
           (m_e m) (m_f m).

(** [Math.floor] of a finite number. *)
Definition floor (x : number) : option Z :=
  match Prim2SF x with
  | S754_zero _ => Some 0
  | S754_finite s m e =>
      if 0 <=? e then Some ((if s then -1 else 1) * (Z.pos m * 2 ^ e))
      else
        let d := 2 ^ (- e) in
        Some (if s then - ((Z.pos m + d - 1) / d) else Z.pos m / d)
  | _ => None
  end.

Definition Pixel := (Z * Z * Z * Z)%type.

Definition pixel_at (pixels : list Z) (w x y : Z) : Pixel :=
  let i := Z.to_nat ((y * w + x) * 4) in
  (pixels !!! i, pixels !!! S i, pixels !!! S (S i), pixels !!! S (S (S i))).

Definition apply_fn (fn : FilterFn) (p : Pixel) : Pixel :=
  let '(r, g, b, a) := p in
  let R := of_Z r in
  let G := of_Z g in
  let B := of_Z b in
  match fn with
  | Brightness pct =>
      let t := (pct / 100)%float in
      (ToUint8Clamp (R * t), ToUint8Clamp (G * t), ToUint8Clamp (B * t), a)
  | Contrast pct =>
      let t := (pct / 100)%float in
      (ToUint8Clamp ((R - 127.5) * t + 127.5),
       ToUint8Clamp ((G - 127.5) * t + 127.5),
       ToUint8Clamp ((B - 127.5) * t + 127.5), a)
  | Saturate pct =>
      let t := (pct / 100)%float in
      let lr := (213 / 1000)%float in
      let lg := (715 / 1000)%float in
      let lb := (72 / 1000)%float in
      (ToUint8Clamp ((lr + (1 - lr) * t) * R + (lg - lg * t) * G + (lb - lb * t) * B),
       ToUint8Clamp ((lr - lr * t) * R + (lg + (1 - lg) * t) * G + (lb - lb * t) * B),
       ToUint8Clamp ((lr - lr * t) * R + (lg - lg * t) * G + (lb + (1 - lb) * t) * B),
       a)
  end.

Definition apply_filter (f : Filter) (p : Pixel) : Pixel :=
  fold_left (fun p fn => apply_fn fn p) f p.

(** The source pixel under the centre of destination pixel [(x, y)]. *)
Definition source_of (m : DOMMatrix) (x y : Z) : option (Z * Z) :=
  let X := (of_Z x + 0.5 - m_e m)%float in
  let Y := (of_Z y + 0.5 - m_f m)%float in
  let det := (m_a m * m_d m - m_b m * m_c m)%float in
  let u := ((m_d m * X - m_c m * Y) / det)%float in
  let v := ((m_a m * Y - m_b m * X) / det)%float in
  match floor u, floor v with
  | Some i, Some j => Some (i, j)
  | _, _ => None
  end.

(** Source-over compositing of straight-alpha pixels. *)
Definition source_over (src dst : Pixel) : Pixel :=
  let '(sr, sg, sb, sa) := src in
  let '(dr, dg, db, da) := dst in
  let As := (of_Z sa / 255)%float in
  let Ad := (of_Z da / 255 * (1 - As))%float in
  let Ao := (As + Ad)%float in
  if (Ao =? 0)%float then (0, 0, 0, 0)
  else
    let mix s d := ToUint8Clamp ((of_Z s * As + of_Z d * Ad) / Ao) in
    (mix sr dr, mix sg dg, mix sb db, ToUint8Clamp (Ao * 255)).

Definition draw_pixel (m : DOMMatrix) (f : Filter) (img : HTMLImage)
    (dst : ImageData) (i : nat) : list Z :=
  let x := Z.of_nat i mod width dst in
  let y := Z.of_nat i / width dst in
  let under := pixel_at (data dst) (width dst) x y in
  let '(r, g, b, a) :=
    match source_of m x y with
    | Some (u, v) =>
        if (0 <=? u) && (u <? img_width img) && (0 <=? v) && (v <? img_height img)
        then source_over
               (apply_filter f (pixel_at (img_pixels img) (img_width img) u v))
               under
        else under
    | None => under
    end in
  [r; g; b; a].

Definition rasterize (m : DOMMatrix) (f : Filter) (img : HTMLImage)
    (dst : ImageData) : list Z :=
  flat_map (draw_pixel m f img dst)
           (seq 0 (Z.to_nat (width dst * height dst))).

Definition encode (type : string) (d : ImageData) : option (list Z) :=
  Some (data d).

Definition browser : Platform :=
  mkPlatform DOMMatrix identity translate rotate scale rasterize encode.

(** The example of the specification: 4 by 4, opaque mid-grey. *)
Definition grey (w h : Z) : HTMLImage :=
  mkImage w h (concat (replicate (Z.to_nat (w * h)) [128; 128; 128; 255])).

(** The editor of the reference browser showing the grey image. *)
Definition grey_editor (w h : Z) (a : Adjust.AdjustmentState) : ImageEditor.Editor browser :=
  ImageEditor.mkEditor browser (Some (grey w h)) (Some (default_canvas browser)) a.

End RefPlatform.

(** ** [Gallery]: classification of the stored files *)

Module Gallery.

Local Open Scope string_scope.

Inductive MediaType := image | video.

Record MediaItem := mkMediaItem {
  id : string;
  name : string;
  url : string;
  type : MediaType
}.

(** An entry of the listing returned by the storage. *)
Record FileObject := mkFile {
  file_id : string;
  file_name : string
}.

(** [toLowerCase] on the code units of a name.  The letters [A]..[Z] are
    the only code units whose lower case is one of the characters of the
    three extensions, so the other code units are left as they are. *)
Definition lower (c : ascii) : ascii :=
  let n := nat_of_ascii c in
  if (Nat.leb 65 n && Nat.leb n 90)%bool then ascii_of_nat (n + 32) else c.

Fixpoint toLowerCase (s : string) : string :=
  match s with
  | EmptyString => EmptyString
  | String c s' => String (lower c) (toLowerCase s')
  end.

Definition video_extensions : list string := [".mp4"; ".webm"; ".mov"].

(** [s.match(/\.(mp4|webm|mov)$/)] is not [null]: some position of [s] is
    followed by exactly a dot and one of the alternatives. *)
Fixpoint matches_video (s : string) : bool :=
  match s with
  | EmptyString => false
  | String _ s' => existsb (String.eqb s) video_extensions || matches_video s'
  end.

Definition isVideo (file : FileObject) : bool :=
  matches_video (toLowerCase (file_name file)).

Section LoadMedia.
(** [supabase.storage.from('media').getPublicUrl(path).data.publicUrl] *)
Variable getPublicUrl : string -> string.
Variable user_id : string.

Definition toMediaItem (file : FileObject) : MediaItem :=
  mkMediaItem (file_id file) (file_name file)
              (getPublicUrl (user_id ++ "/" ++ file_name file))
              (if isVideo file then video else image).

(** [data.map((file) => ...)] in [loadMedia]. *)
Definition loadMedia (listing : list FileObject) : list MediaItem :=
  map toMediaItem listing.

End LoadMedia.

Definition is_image (m : MediaItem) : bool :=
  match type m with
  | image => true
  | video => false
  end.

(** [<ThreeDViewer media={media.filter(m => m.type === 'image')} />] *)
Definition viewer_media (media : list MediaItem) : list MediaItem :=
  List.filter is_image media.

(** [{item.type === 'image' && (<Button ... setEditingMedia(item) ... />)}]:
    the items that get an edit button. *)
Definition editable (media : list MediaItem) : list MediaItem :=
  List.filter is_image media.

(** A name ends with [ext] when case is ignored. *)
Definition ends_with_ci (s ext : string) : Prop :=
  exists p t, s = p ++ t /\ toLowerCase t = toLowerCase ext.

End Gallery.

(** ** The controls of the editor as events *)

Module Controls.
Import JS Adjust.

(** What the user can do to the adjustment state: move a slider, or press
    one of the three buttons. *)
Inductive event :=
| Slide (p : slider) (v : number)
| PressRotate
| PressZoomIn
| PressZoomOut.

Definition handle (e : event) (s : AdjustmentState) : AdjustmentState :=
  match e with
  | Slide p v => slider_set p v s
  | PressRotate => handleRotate s
  | PressZoomIn => handleZoomIn s
  | PressZoomOut => handleZoomOut s
  end.

Definition run_events (es : list event) (s : AdjustmentState) : AdjustmentState :=
  fold_left (fun s e => handle e s) es s.

Definition is_rotate (e : event) : bool :=
  match e with
  | PressRotate => true
  | _ => false
  end.

Definition rotations (es : list event) : nat :=
  length (List.filter is_rotate es).

End Controls.

(** ** Two special neighbourhoods of [applySharpen] *)

Module SharpenCases.
Import JS.

(** The sum the two innermost loops of [applySharpen] compute when the
    centre and its four orthogonal neighbours hold [v] and the diagonal
    products are [0]. *)
Definition flat_sum (k v : number) : number :=
  (0 + 0 + v * - k + 0 + v * - k + v * (1 + 4 * k) + v * - k + 0 + v * - k + 0)%float.

(** The same sum for the kernel of amount [0], whatever the neighbours. *)
Definition zero_sum (v : number) : number :=
  (0 + 0 + - 0 + 0 + - 0 + v * (1 + 4 * 0) + - 0 + 0 + - 0 + 0)%float.

(** The centre and its four orthogonal neighbours, as [(ky, kx)]. *)
Definition cross : list (Z * Z) := [ (-1, 0); (0, -1); (0, 0); (0, 1); (1, 0) ].

(** Channel [c] holds [b] at pixel [(x, y)] and at its four orthogonal
    neighbours. *)
Definition flat_at (d : Sharpen.ImageData) (x y c b : Z) : Prop :=
  Forall (fun o => Sharpen.data d !! Sharpen.offset d (x + snd o) (y + fst o) c = Some b)
         cross.

Definition slider_steps : list Z := range 1 101.

Definition bytes : list Z := range 0 256.

(** A 3 by 3 image whose 36 bytes are 0, 7, 14, ..., 245. *)
Definition ramp : Sharpen.ImageData :=
  Sharpen.mkImageData 3 3 (map (fun i => 7 * i) (range 0 36)).

(** A 3 by 3 image with every byte 128. *)
Definition level : Sharpen.ImageData :=
  Sharpen.mkImageData 3 3 (replicate 36 128).

End SharpenCases.

(** ** [Gallery]: the names given to stored files *)

Module Storage.
Import Gallery.

Local Open Scope string_scope.

Definition dot : ascii := "."%char.

(** [s.split('.')] *)
Fixpoint split_dot (s : string) : list string :=
  match s with
  | EmptyString => [EmptyString]
  | String c s' =>
      if Ascii.eqb c dot then EmptyString :: split_dot s'
      else match split_dot s' with
           | seg :: rest => String c seg :: rest
           | [] => [String c EmptyString]
           end
  end.

(** [file.name.split('.').pop()] *)
Definition fileExt (name : string) : string :=
  List.last (split_dot name) EmptyString.

(** [`${Date.now()}`]: the decimal digits of the time stamp. *)
Definition stamp (now : N) : string :=
  NilZero.string_of_uint (N.to_uint now).

(** [`${Date.now()}.${fileExt}`] in [handleUpload]. *)
Definition upload_name (now : N) (name : string) : string :=
  stamp now ++ "." ++ fileExt name.

(** [`${Date.now()}_edited.${fileExt}`] in the editor's [onSave]. *)
Definition edited_name (now : N) (name : string) : string :=
  stamp now ++ "_edited." ++ fileExt name.

Fixpoint has_dot (s : string) : bool :=
  match s with
  | EmptyString => false
  | String c s' => Ascii.eqb c dot || has_dot s'
  end.

Definition video_types : list string := ["mp4"; "webm"; "mov"].

End Storage.

(** ** [ThreeDViewer] *)

Module Viewer3D.
Import Gallery.

(** [media.map((m) => m.url)] *)
Definition imageUrls (media : list MediaItem) : list string :=
  map url media.

(** [prev === 0 ? imageUrls.length - 1 : prev - 1] *)
Definition handlePrevious (len prev : Z) : Z :=
  if prev =? 0 then len - 1 else prev - 1.

(** [prev === imageUrls.length - 1 ? 0 : prev + 1] *)
Definition handleNext (len prev : Z) : Z :=
  if prev =? len - 1 then 0 else prev + 1.

(** [images.slice(0, 6)], one texture per URL. *)
Definition cube_textures (images : list string) : list string :=
  firstn 6 images.

(** What [Gallery] hands to the cube when [view === '3d']. *)
Definition cube_of_listing (getPublicUrl : string -> string) (user_id : string)
    (listing : list FileObject) : list string :=
  cube_textures (imageUrls (viewer_media (loadMedia getPublicUrl user_id listing))).

End Viewer3D.

(** ** [AuthContext] and [ThemeToggle]: the theme *)

Module Theme.

Inductive theme := light | dark.

(** The part of the provider's state the theme depends on;
    [light_class] tells whether [document.documentElement] carries the
    class [light]; [pending] holds the themes of the calls of [updateTheme]
    that wait at their [await], oldest first. *)
Record AuthState := mkAuth {
  user : option string;
  username : option string;
  current : theme;
  light_class : bool;
  pending : list theme
}.

Definition is_light (t : theme) : bool :=
  match t with
  | light => true
  | dark => false
  end.

(** [updateTheme(newTheme)] up to its [await]: nothing happens without a
    signed-in user; otherwise the profile update is sent and the call
    waits. *)
Definition updateTheme_call (newTheme : theme) (st : AuthState) : AuthState :=
  match user st with
  | Some _ =>
      mkAuth (user st) (username st) (current st) (light_class st)
             (pending st ++ [newTheme])
  | None => st
  end.

(** [updateTheme] from its [await] on, for the waiting call number [i]:
    [setTheme(newTheme)] and the class toggle.  The outcome of the profile
    update is not looked at, and the updates may return in any order. *)
Definition updateTheme_resume (i : nat) (st : AuthState) : AuthState :=
  match pending st !! i with
  | Some t =>
      mkAuth (user st) (username st) t (is_light t)
             (take i (pending st) ++ drop (S i) (pending st))
  | None => st
  end.

(** [theme === 'light' ? 'dark' : 'light'] *)
Definition other (t : theme) : theme :=
  match t with
  | light => dark
  | dark => light
  end.

(** [onClick={() => updateTheme(theme === 'light' ? 'dark' : 'light')}]:
    [theme] is the one of the last render, which is [current] until a waiting
    call resumes. *)
Definition press (st : AuthState) : AuthState :=
  updateTheme_call (other (current st)) st.

(** [fetchProfile] once the row has arrived ([data] is [None] when the
    query gave none). *)
Definition fetchProfile (data : option (string * theme)) (st : AuthState) : AuthState :=
  match data with
  | Some (name, pref) =>
      mkAuth (user st) (Some name) pref (is_light pref) (pending st)
  | None => st
  end.

(** What happens to the theme: a press of the button, a direct call of
    [updateTheme], the return of a profile update, the arrival of the
    profile. *)
Inductive theme_event :=
| PressToggle
| Update (t : theme)
| Resume (i : nat)
| Fetch (data : option (string * theme)).

Definition theme_handle (e : theme_event) (st : AuthState) : AuthState :=
  match e with
  | PressToggle => press st
  | Update t => updateTheme_call t st
  | Resume i => updateTheme_resume i st
  | Fetch data => fetchProfile data st
  end.

Definition theme_run (es : list theme_event) (st : AuthState) : AuthState :=
  fold_left (fun st e => theme_handle e st) es st.

End Theme.

(** ** Images the reference browser reproduces *)

Module Reproduction.
Import JS Canvas RefPlatform.














End Reproduction.

(** * Theorems *)

Section ZoomOrbit.
Import JS Adjust.

Lemma index_of_nth (f : number -> number) (l : list number) :
  map f l = map (fun z => nth (index_of (f z) l) l nan) l ->
  forallb (fun z => known (f z) l) l = true ->
  forall z, In z l -> In (f z) l.
Proof.
  intros Heq Hlt z Hz.
  rewrite (proj1 (@map_ext_in_iff _ _ _ _ _) Heq z Hz).
  apply nth_In.
  rewrite forallb_forall in Hlt.
  specialize (Hlt z Hz). unfold known in Hlt.
  apply Nat.ltb_lt in Hlt. exact Hlt.
Qed.

Lemma zoom_orbit_in z : In z zoom_orbit -> In (zoom_in_step z) zoom_orbit.
Proof.
  apply index_of_nth; vm_compute; reflexivity.
Qed.

Lemma zoom_orbit_out z : In z zoom_orbit -> In (zoom_out_step z) zoom_orbit.
Proof.
  apply index_of_nth; vm_compute; reflexivity.
Qed.

Lemma zoom_reachable_orbit z : zoom_reachable z -> In z zoom_orbit.
Proof.
  induction 1 as [|z _ IH|z _ IH].
  - left. reflexivity.
  - apply zoom_orbit_in, IH.
  - apply zoom_orbit_out, IH.
Qed.

Lemma zoom_orbit_bounds : forallb zoom_ok zoom_orbit = true.
Proof. vm_compute. reflexivity. Qed.

Lemma zoom_orbit_clamp_in :
  map zoom_in_step zoom_orbit =
  map (fun z => clamp 0.5 3 (PrimFloat.add z zoom_delta)) zoom_orbit.
Proof. vm_compute. reflexivity. Qed.

Lemma zoom_orbit_clamp_out :
  map zoom_out_step zoom_orbit =
  map (fun z => clamp 0.5 3 (PrimFloat.sub z zoom_delta)) zoom_orbit.
Proof. vm_compute. reflexivity. Qed.

End ZoomOrbit.

Section Mutators.
Import JS Adjust.

(** C7: from a zoom value that the buttons can reach from the default 1,
    [handleZoomIn] stores [zoom + 0.1] clamped to [0.5, 3] and
    [handleZoomOut] stores [zoom - 0.1] clamped to [0.5, 3]; every such
    value satisfies [0.5 <= zoom <= 3]. *)
Theorem zoom_buttons_keep_range (s : AdjustmentState) :
  zoom_reachable (zoom s) ->
  in_interval 0.5 3 (zoom s) /\
  zoom (handleZoomIn s) = clamp 0.5 3 (PrimFloat.add (zoom s) zoom_delta) /\
  zoom (handleZoomOut s) = clamp 0.5 3 (PrimFloat.sub (zoom s) zoom_delta) /\
  zoom_reachable (zoom (handleZoomIn s)) /\
  zoom_reachable (zoom (handleZoomOut s)).
Proof.
  intros Hr. pose proof (zoom_reachable_orbit _ Hr) as Hin.
  repeat split.
  - pose proof zoom_orbit_bounds as Hb. rewrite forallb_forall in Hb.
    specialize (Hb _ Hin). unfold zoom_ok in Hb.
    apply andb_prop in Hb. tauto.
  - pose proof zoom_orbit_bounds as Hb. rewrite forallb_forall in Hb.
    specialize (Hb _ Hin). unfold zoom_ok in Hb.
    apply andb_prop in Hb. tauto.
  - exact (proj1 (@map_ext_in_iff _ _ _ _ _) zoom_orbit_clamp_in _ Hin).
  - exact (proj1 (@map_ext_in_iff _ _ _ _ _) zoom_orbit_clamp_out _ Hin).
  - simpl. apply zr_in, Hr.
  - simpl. apply zr_out, Hr.
Qed.

Lemma zoom_buttons_keep_range_witness :
  zoom_reachable (zoom (handleZoomIn initial)) /\
  in_interval 0.5 3 (zoom (handleZoomIn initial)).
Proof.
  split.
  - apply zr_in, zr_initial.
  - apply (zoom_buttons_keep_range (handleZoomIn initial)).
    apply zr_in, zr_initial.
Defined.

End Mutators.

Section Arrays.
Import JS.

Lemma In_range lo hi i : In i (range lo hi) <-> lo <= i < hi.
Proof.
  unfold range. rewrite in_map_iff. split.
  - intros (n & <- & Hn). apply in_seq in Hn. lia.
  - intros H. exists (Z.to_nat (i - lo)). split; [lia|].
    apply in_seq. lia.
Qed.

Lemma typed_set_length a idx v : length (typed_set a idx v) = length a.
Proof.
  unfold typed_set. destruct (idx <? 0); [reflexivity|].
  apply length_insert.
Qed.

Lemma typed_set_same a idx v :
  0 <= idx -> (Z.to_nat idx < length a)%nat ->
  typed_set a idx v !! Z.to_nat idx = Some (ToUint8Clamp v).
Proof.
  intros H0 Hlt. unfold typed_set.
  destruct (Z.ltb_spec idx 0); [lia|].
  apply list_lookup_insert_eq. exact Hlt.
Qed.

Lemma typed_set_other a idx v j :
  j <> Z.to_nat idx -> typed_set a idx v !! j = a !! j.
Proof.
  intros Hne. unfold typed_set. destruct (idx <? 0); [reflexivity|].
  apply list_lookup_insert_ne. congruence.
Qed.

Lemma round_half_even_nonneg m e : 0 <= round_half_even m e.
Proof.
  unfold round_half_even. destruct (Z.leb_spec 0 e).
  - apply Z.mul_nonneg_nonneg; [lia|]. apply Z.pow_nonneg. lia.
  - assert (0 < 2 ^ (- e)) by (apply Z.pow_pos_nonneg; lia).
    assert (0 <= Z.pos m / 2 ^ (- e)) by (apply Z.div_pos; lia).
    repeat match goal with |- context [if ?b then _ else _] => destruct b end; lia.
Qed.

Lemma ToUint8Clamp_byte v : 0 <= ToUint8Clamp v <= 255.
Proof.
  unfold ToUint8Clamp.
  destruct (Prim2SF v) as [s|s| |s m e]; try destruct s; try lia.
  pose proof (round_half_even_nonneg m e). lia.
Qed.

Lemma byte_roundtrip_table :
  forallb (fun b => ToUint8Clamp (of_Z b) =? b) (range 0 256) = true.
Proof. vm_compute. reflexivity. Qed.

Lemma byte_roundtrip b : 0 <= b <= 255 -> ToUint8Clamp (of_Z b) = b.
Proof.
  intros Hb. pose proof byte_roundtrip_table as T.
  rewrite forallb_forall in T.
  apply Z.eqb_eq, T, In_range. lia.
Qed.

End Arrays.

Section FoldWrites.
Context {K : Type} (K_dec : forall a b : K, {a = b} + {a <> b}).
Variable step : K -> list Z -> list Z.
Hypothesis step_length : forall k out, length (step k out) = length out.

Lemma run_length keys out :
  length (fold_left (fun out k => step k out) keys out) = length out.
Proof.
  revert out. induction keys as [|k keys IH]; intros out; simpl; [reflexivity|].
  rewrite IH. apply step_length.
Qed.

Lemma run_frame keys out j :
  (forall k, In k keys -> forall o, step k o !! j = o !! j) ->
  fold_left (fun out k => step k out) keys out !! j = out !! j.
Proof.
  revert out. induction keys as [|k keys IH]; intros out Hf; simpl; [reflexivity|].
  rewrite IH.
  - apply Hf. left. reflexivity.
  - intros k' Hk'. apply Hf. right. exact Hk'.
Qed.

Lemma run_value keys out j v k0 :
  In k0 keys ->
  (forall o, length o = length out -> step k0 o !! j = Some v) ->
  (forall k, In k keys -> k <> k0 -> forall o, step k o !! j = o !! j) ->
  fold_left (fun out k => step k out) keys out !! j = Some v.
Proof.
  revert out. induction keys as [|k keys IH]; intros out Hin Hv Hf; [destruct Hin|].
  simpl. destruct (in_dec K_dec k0 keys) as [Hk|Hk].
  - apply IH; [exact Hk| |].
    + intros o Ho. apply Hv. rewrite Ho. apply step_length.
    + intros k' Hk' Hne. apply Hf; [right; exact Hk'|exact Hne].
  - destruct Hin as [->|Hin]; [|contradiction].
    rewrite run_frame.
    + apply Hv. reflexivity.
    + intros k' Hk' o. apply Hf; [right; exact Hk'|].
      intros ->. contradiction.
Qed.

End FoldWrites.

Lemma pixel_offset_inj w x y c x' y' c' :
  0 <= x < w -> 0 <= x' < w -> 0 <= y -> 0 <= y' ->
  0 <= c < 4 -> 0 <= c' < 4 ->
  Z.to_nat ((y * w + x) * 4 + c) = Z.to_nat ((y' * w + x') * 4 + c') ->
  x = x' /\ y = y' /\ c = c'.
Proof.
  intros Hx Hx' Hy Hy' Hc Hc' E.
  assert (0 <= y * w) by nia. assert (0 <= y' * w) by nia.
  apply Z2Nat.inj in E; [|lia|lia].
  assert (y * w + x = y' * w + x') as E' by lia.
  assert (y = y') as ->.
  { destruct (Z.lt_trichotomy y y') as [L | [L | L]]; [|exact L|].
    - assert (y * w + w <= y' * w) by nia. lia.
    - assert (y' * w + w <= y * w) by nia. lia. }
  lia.
Qed.

Section SharpenLoops.
Import JS Sharpen.

Variables (dat : list Z) (w : Z) (k : list number).

Lemma sharpen_pixel_unfold y x out :
  sharpen_pixel dat w k y x out =
  typed_set
    (typed_set
       (typed_set
          (typed_set out ((y * w + x) * 4 + 0)
             (Math_min 255 (Math_max 0 (convolve dat w k y x 0))))
          ((y * w + x) * 4 + 1)
          (Math_min 255 (Math_max 0 (convolve dat w k y x 1))))
       ((y * w + x) * 4 + 2)
       (Math_min 255 (Math_max 0 (convolve dat w k y x 2))))
    ((y * w + x) * 4 + 3) (typed_get dat ((y * w + x) * 4 + 3)).
Proof. reflexivity. Qed.

Lemma sharpen_pixel_length y x out :
  length (sharpen_pixel dat w k y x out) = length out.
Proof. rewrite sharpen_pixel_unfold, !typed_set_length. reflexivity. Qed.

Lemma sharpen_pixel_frame y x out j :
  (forall c, 0 <= c < 4 -> j <> Z.to_nat ((y * w + x) * 4 + c)) ->
  sharpen_pixel dat w k y x out !! j = out !! j.
Proof.
  intros H. rewrite sharpen_pixel_unfold.
  rewrite !typed_set_other; [reflexivity| | | |]; apply H; lia.
Qed.

Lemma sharpen_pixel_value y x c out :
  0 <= y * w + x -> 0 <= c < 4 ->
  (Z.to_nat ((y * w + x) * 4 + 3) < length out)%nat ->
  sharpen_pixel dat w k y x out !! Z.to_nat ((y * w + x) * 4 + c) =
  Some (pixel_value dat w k y x c).
Proof.
  intros Hp Hc Hlen. rewrite sharpen_pixel_unfold. unfold pixel_value, clamp_sample.
  assert (c = 0 \/ c = 1 \/ c = 2 \/ c = 3) as [-> | [-> | [-> | ->]]] by lia; simpl.
  - rewrite !typed_set_other by lia.
    apply typed_set_same; lia.
  - rewrite !typed_set_other by lia.
    apply typed_set_same; [lia|]. rewrite !typed_set_length. lia.
  - rewrite !typed_set_other by lia.
    apply typed_set_same; [lia|]. rewrite !typed_set_length. lia.
  - apply typed_set_same; [lia|]. rewrite !typed_set_length. lia.
Qed.

Lemma sharpen_row_length y out : length (sharpen_row dat w k y out) = length out.
Proof.
  unfold sharpen_row.
  apply (run_length (fun x o => sharpen_pixel dat w k y x o)).
  intros. apply sharpen_pixel_length.
Qed.

Lemma sharpen_row_frame y out j :
  (forall x c, 1 <= x < w - 1 -> 0 <= c < 4 ->
     j <> Z.to_nat ((y * w + x) * 4 + c)) ->
  sharpen_row dat w k y out !! j = out !! j.
Proof.
  intros H. unfold sharpen_row.
  apply (run_frame (fun x o => sharpen_pixel dat w k y x o)).
  intros x Hx o. apply sharpen_pixel_frame.
  intros c Hc. apply H; [apply In_range, Hx|exact Hc].
Qed.

Lemma sharpen_row_value y x c out :
  0 <= y -> 1 <= x < w - 1 -> 0 <= c < 4 ->
  (Z.to_nat ((y * w + x) * 4 + 3) < length out)%nat ->
  sharpen_row dat w k y out !! Z.to_nat ((y * w + x) * 4 + c) =
  Some (pixel_value dat w k y x c).
Proof.
  intros Hy Hx Hc Hlen. unfold sharpen_row.
  apply (run_value Z.eq_dec (fun x o => sharpen_pixel dat w k y x o)) with (k0 := x).
  - intros. apply sharpen_pixel_length.
  - apply In_range, Hx.
  - intros o Ho. apply sharpen_pixel_value; [nia|lia|]. rewrite Ho. exact Hlen.
  - intros x' Hx' Hne o. apply sharpen_pixel_frame.
    intros c' Hc'. apply In_range in Hx'.
    assert (0 <= y * w) by nia. lia.
Qed.

End SharpenLoops.

Section SharpenImage.
Import JS Sharpen.

Lemma applySharpen_untouched d amount j :
  (forall x y c, interior d x y -> 0 <= c < 4 -> j <> offset d x y c) ->
  data (applySharpen d amount) !! j =
  replicate (Z.to_nat (width d * height d * 4)) 0 !! j.
Proof.
  intros H. unfold applySharpen. simpl.
  apply (run_frame (fun y o => sharpen_row (data d) (width d) (kernel amount) y o)).
  intros y Hy o. apply sharpen_row_frame.
  intros x c Hx Hc. apply H; [|exact Hc].
  split; [exact Hx|apply In_range, Hy].
Qed.

Lemma applySharpen_interior d amount x y c :
  1 <= width d -> interior d x y -> 0 <= c < 4 ->
  data (applySharpen d amount) !! offset d x y c =
  Some (pixel_value (data d) (width d) (kernel amount) y x c).
Proof.
  intros Hw [Hx Hy] Hc. unfold applySharpen, offset. simpl.
  apply (run_value Z.eq_dec
           (fun y o => sharpen_row (data d) (width d) (kernel amount) y o))
    with (k0 := y).
  - intros. apply sharpen_row_length.
  - apply In_range, Hy.
  - intros o Ho. apply sharpen_row_value; [lia|exact Hx|exact Hc|].
    rewrite Ho, length_replicate. nia.
  - intros y' Hy' Hne o. apply sharpen_row_frame.
    intros x' c' Hx' Hc' E. apply In_range in Hy'.
    apply pixel_offset_inj in E; lia.
Qed.

Lemma applySharpen_border d amount x y c :
  on_border d x y -> 0 <= c < 4 ->
  data (applySharpen d amount) !! offset d x y c = Some 0.
Proof.
  intros (Hx & Hy & Hb) Hc.
  rewrite applySharpen_untouched.
  - apply lookup_replicate_2. unfold offset. nia.
  - intros x' y' c' [Hx' Hy'] Hc' E. unfold offset in E.
    apply pixel_offset_inj in E; lia.
Qed.

Lemma applySharpen_small d amount :
  width d < 3 \/ height d < 3 ->
  data (applySharpen d amount) = replicate (Z.to_nat (width d * height d * 4)) 0.
Proof.
  intros Hs. apply list_eq. intros j.
  apply applySharpen_untouched.
  intros x y c [Hx Hy]. lia.
Qed.

Lemma convolve_kernel d amount x y c :
  convolve (data d) (width d) (kernel amount) y x c =
  convolution3x3 (kernel_weight amount) d x y c.
Proof. reflexivity. Qed.

End SharpenImage.

Section Render.
Import JS Adjust Sharpen Canvas ImageEditor.
Variable P : Platform.

Lemma surface_restore (c : CanvasEl P) : surface P (restore P c) = surface P c.
Proof. reflexivity. Qed.

Lemma surface_putImageData d (c : CanvasEl P) :
  surface P (putImageData P d c) = mkImageData (cv_width P c) (cv_height P c) (data d).
Proof. reflexivity. Qed.

Lemma composite_width a img (cv : CanvasEl P) :
  cv_width P (composite P a img cv) = img_width img.
Proof. reflexivity. Qed.

Lemma composite_height a img (cv : CanvasEl P) :
  cv_height P (composite P a img cv) = img_height img.
Proof. reflexivity. Qed.


Lemma composite_dims a img (cv : CanvasEl P) :
  width (surface P (composite P a img cv)) = img_width img /\
  height (surface P (composite P a img cv)) = img_height img.
Proof. split; [apply composite_width|apply composite_height]. Qed.

Lemma rendered_plain (ed : Editor P) img cv :
  image P ed = Some img -> canvasRef P ed = Some cv ->
  (0 <? sharpness (adjust P ed))%float = false ->
  rendered P ed = Some (surface P (composite P (adjust P ed) img cv)) /\
  snd (applyFilters P ed) = Normal.
Proof.
  intros Hi Hc Hs. unfold rendered, applyFilters. rewrite Hi, Hc, Hs.
  cbn [fst snd canvasRef]. rewrite surface_restore. split; reflexivity.
Qed.

Lemma rendered_sharpened (ed : Editor P) img cv :
  image P ed = Some img -> canvasRef P ed = Some cv ->
  (0 <? sharpness (adjust P ed))%float = true ->
  img_width img <> 0 -> img_height img <> 0 ->
  rendered P ed =
  Some (applySharpen (surface P (composite P (adjust P ed) img cv))
                     (sharpness (adjust P ed) / 100)) /\
  snd (applyFilters P ed) = Normal.
Proof.
  intros Hi Hc Hs Hw Hh. unfold rendered, applyFilters.
  rewrite Hi, Hc, Hs. unfold getImageData.
  rewrite composite_width, composite_height.
  destruct (Z.eqb_spec (img_width img) 0) as [|_]; [contradiction|].
  destruct (Z.eqb_spec (img_height img) 0) as [|_]; [contradiction|].
  cbn [orb fst snd canvasRef].
  rewrite surface_restore, surface_putImageData.
  generalize (composite P (adjust P ed) img cv). intros c.
  split; reflexivity.
Qed.

(** C8: with [sharpness = 0] the render leaves on the canvas exactly the
    composited image: [applySharpen] is not called. *)
Theorem sharpness_zero_skips_convolution (ed : Editor P) img cv :
  image P ed = Some img -> canvasRef P ed = Some cv ->
  sharpness (adjust P ed) = 0%float ->
  rendered P ed = Some (surface P (composite P (adjust P ed) img cv)) /\
  snd (applyFilters P ed) = Normal.
Proof.
  intros Hi Hc Hs. apply rendered_plain; [exact Hi|exact Hc|].
  rewrite Hs. reflexivity.
Qed.

(** C4: with [sharpness = s > 0], at every interior pixel of the composited
    image the render stores, for each colour channel, the convolution with
    the kernel of centre [1 + 4k], orthogonal neighbours [-k] and diagonal
    neighbours [0], [k = s / 100], clamped to [0, 255]; the alpha byte is the
    composited one. *)
Theorem sharpen_pass_convolves_interior (ed : Editor P) img cv x y :
  image P ed = Some img -> canvasRef P ed = Some cv ->
  (0 <? sharpness (adjust P ed))%float = true ->
  let pre := surface P (composite P (adjust P ed) img cv) in
  let k := (sharpness (adjust P ed) / 100)%float in
  wf_ImageData pre -> interior pre x y ->
  exists out,
    rendered P ed = Some out /\
    width out = width pre /\ height out = height pre /\
    (forall c, 0 <= c < 3 ->
       data out !! offset pre x y c =
         Some (clamp_sample (convolution3x3 (kernel_weight k) pre x y c)) /\
       0 <= clamp_sample (convolution3x3 (kernel_weight k) pre x y c) <= 255) /\
    data out !! offset pre x y 3 = data pre !! offset pre x y 3.
Proof.
  intros Hi Hc Hs pre k Hwf Hint.
  destruct Hwf as (Hw & Hh & Hlen & Hbytes).
  destruct (rendered_sharpened ed img cv Hi Hc Hs) as [Hr _].
  { pose proof (composite_width (adjust P ed) img cv) as E.
    unfold pre, surface in Hw. cbn [width] in Hw. lia. }
  { pose proof (composite_height (adjust P ed) img cv) as E.
    unfold pre, surface in Hh. cbn [height] in Hh. lia. }
  exists (applySharpen pre k). split; [exact Hr|].
  split; [reflexivity|]. split; [reflexivity|]. split.
  - intros c Hc3. split; [|apply ToUint8Clamp_byte].
    rewrite applySharpen_interior by (try assumption; lia).
    unfold pixel_value. destruct (Z.ltb_spec c 3); [|lia].
    rewrite convolve_kernel. reflexivity.
  - rewrite applySharpen_interior by (try assumption; lia).
    unfold pixel_value. simpl (3 <? 3).
    destruct Hint as [Hx Hy].
    assert (offset pre x y 3 < length (data pre))%nat as Hin.
    { rewrite Hlen. unfold offset. nia. }
    destruct (lookup_lt_is_Some_2 _ _ Hin) as [b Hb].
    rewrite Hb. unfold typed_get.
    destruct (Z.ltb_spec ((y * width pre + x) * 4 + 3) 0); [nia|].
    fold (offset pre x y 3). rewrite Hb.
    rewrite byte_roundtrip; [reflexivity|].
    rewrite Forall_forall in Hbytes. apply Hbytes.
    apply list_elem_of_lookup. eauto.
Qed.

(** With [sharpness > 0] every byte of every border pixel of the rendered
    surface is 0. *)
Lemma sharpen_pass_blanks_border (ed : Editor P) img cv x y c :
  image P ed = Some img -> canvasRef P ed = Some cv ->
  (0 <? sharpness (adjust P ed))%float = true ->
  let pre := surface P (composite P (adjust P ed) img cv) in
  on_border pre x y -> 0 <= c < 4 ->
  exists out, rendered P ed = Some out /\ data out !! offset pre x y c = Some 0.
Proof.
  intros Hi Hc Hs pre Hb Hc4.
  destruct (rendered_sharpened ed img cv Hi Hc Hs) as [Hr _].
  { pose proof (composite_width (adjust P ed) img cv) as E.
    destruct Hb as (Hx & _ & _). unfold pre, surface in Hx. cbn [width] in Hx. lia. }
  { pose proof (composite_height (adjust P ed) img cv) as E.
    destruct Hb as (_ & Hy & _). unfold pre, surface in Hy. cbn [height] in Hy. lia. }
  exists (applySharpen pre (sharpness (adjust P ed) / 100)).
  split; [exact Hr|]. apply applySharpen_border; assumption.
Qed.

(** C10: when the width or the height of the input is below 3,
    [applySharpen] returns pixel data of the same size with every byte 0, and
    a render of such an image with [sharpness > 0] leaves exactly that blank
    surface. *)
Theorem sharpen_small_image_blank (d : ImageData) (amount : number) :
  width d < 3 \/ height d < 3 ->
  applySharpen d amount =
    mkImageData (width d) (height d)
                (replicate (Z.to_nat (width d * height d * 4)) 0) /\
  Forall (fun b => b = 0) (data (applySharpen d amount)) /\
  forall (ed : Editor P) img cv,
    image P ed = Some img -> canvasRef P ed = Some cv ->
    (0 <? sharpness (adjust P ed))%float = true ->
    surface P (composite P (adjust P ed) img cv) = d ->
    1 <= width d -> 1 <= height d ->
    rendered P ed =
      Some (mkImageData (width d) (height d)
                        (replicate (Z.to_nat (width d * height d * 4)) 0)).
Proof.
  intros Hs.
  assert (applySharpen d amount =
          mkImageData (width d) (height d)
                      (replicate (Z.to_nat (width d * height d * 4)) 0)) as E.
  { pose proof (applySharpen_small d amount Hs) as Hd.
    unfold applySharpen in *. simpl in *. rewrite Hd. reflexivity. }
  split; [exact E|]. split.
  - rewrite E. simpl. apply Forall_forall. intros b Hb.
    apply elem_of_replicate in Hb. tauto.
  - intros ed img cv Hi Hc Hsh Hd Hw Hh.
    destruct (rendered_sharpened ed img cv Hi Hc Hsh) as [Hr _].
    { pose proof (composite_dims (adjust P ed) img cv) as [Ew _].
      rewrite Hd in Ew. lia. }
    { pose proof (composite_dims (adjust P ed) img cv) as [_ Eh].
      rewrite Hd in Eh. lia. }
    rewrite Hr, Hd.
    pose proof (applySharpen_small d (sharpness (adjust P ed) / 100) Hs) as Hz.
    unfold applySharpen in *. simpl in *. rewrite Hz. reflexivity.
Qed.


End Render.

Section Examples.
Import JS Adjust Sharpen Canvas ImageEditor RefPlatform.

Lemma grey_composite_wf :
  wf_ImageData
    (surface browser
       (composite browser (setSharpness 100 initial) (grey 4 4)
                  (default_canvas browser))).
Proof.
  repeat split; try (vm_compute; congruence).
  apply Forall_forall. intros b Hb.
  vm_compute in Hb.
  repeat (apply elem_of_cons in Hb; destruct Hb as [-> | Hb]; [lia|]).
  apply elem_of_nil in Hb. destruct Hb.
Qed.

Lemma sharpness_zero_skips_convolution_witness :
  rendered browser (grey_editor 4 4 (handleRotate initial)) =
  Some (surface browser
          (composite browser (handleRotate initial) (grey 4 4)
                     (default_canvas browser))).
Proof.
  apply (sharpness_zero_skips_convolution browser
           (grey_editor 4 4 (handleRotate initial)) (grey 4 4)
           (default_canvas browser)); reflexivity.
Defined.

Lemma sharpen_pass_convolves_interior_witness :
  exists out,
    rendered browser (grey_editor 4 4 (setSharpness 100 initial)) = Some out /\
    data out !! 20%nat = Some 128 /\ data out !! 23%nat = Some 255.
Proof.
  destruct (sharpen_pass_convolves_interior browser
              (grey_editor 4 4 (setSharpness 100 initial)) (grey 4 4)
              (default_canvas browser) 1 1 eq_refl eq_refl eq_refl
              grey_composite_wf)
    as (out & Hr & _ & _ & Hc & Ha).
  { vm_compute. repeat split; congruence. }
  exists out. split; [exact Hr|]. split.
  - exact (proj1 (Hc 0 ltac:(lia))).
  - exact Ha.
Defined.
End Examples.

Section MoreExamples.
Import JS Adjust Sharpen Canvas ImageEditor RefPlatform.

Lemma sharpen_small_image_blank_witness :
  rendered browser (grey_editor 2 2 (setSharpness 100 initial)) =
  Some (mkImageData 2 2 (replicate 16 0)).
Proof.
  apply (proj2 (proj2
    (sharpen_small_image_blank browser
       (surface browser
          (composite browser (setSharpness 100 initial) (grey 2 2)
                     (default_canvas browser)))
       1%float (or_introl eq_refl)))
    (grey_editor 2 2 (setSharpness 100 initial)) (grey 2 2)
    (default_canvas browser));
    first [reflexivity | vm_compute; congruence].
Defined.

(** C1 (the code departs from it): on the 4 by 4 opaque grey image with
    [sharpness = 100], the corner pixel of the composited image is
    (128, 128, 128, 255) and the corner pixel of the rendered surface is
    (0, 0, 0, 0). *)
Theorem sharpen_erases_border_pixel :
  let ed := grey_editor 4 4 (setSharpness 100 initial) in
  let pre :=
    surface browser
      (composite browser (adjust browser ed) (grey 4 4) (default_canvas browser)) in
  map (fun c => data pre !! offset pre 0 0 c) [0; 1; 2; 3] =
    [Some 128; Some 128; Some 128; Some 255] /\
  (rendered browser ed ≫= fun out =>
     Some (map (fun c => data out !! offset pre 0 0 c) [0; 1; 2; 3])) =
    Some [Some 0; Some 0; Some 0; Some 0].
Proof. vm_compute. split; reflexivity. Qed.

Lemma export_before_load_delivers_blob :
  image browser (mounted browser) = None /\
  handleSave browser (mounted browser) =
    SaveDelivered (mkBlob "image/png" (blank 300 150)).
Proof. split; reflexivity. Qed.

Lemma setter_stores_out_of_range :
  brightness (setBrightness 250 initial) = 250%float /\
  clamp (slider_min SBrightness) (slider_max SBrightness) 250 = 200%float /\
  brightness (setBrightness 250 initial) <>
    clamp (slider_min SBrightness) (slider_max SBrightness) 250.
Proof.
  split; [reflexivity|]. split; [vm_compute; reflexivity|].
  intros E.
  pose proof (f_equal (fun v => PrimFloat.eqb v 250) E) as E'.
  vm_compute in E'. discriminate.
Qed.

End MoreExamples.

Section Saving.
Import JS Adjust Sharpen Canvas ImageEditor.
Variable P : Platform.

(** C3, as the program has it: before any load the mounted canvas is the
    blank 300 by 150 surface; [handleSave] raises nothing, has it encoded as
    image/png and hands the blob to [onSave]; nothing is delivered only when
    the encoder yields no blob, or when no canvas is mounted. *)
Theorem export_before_load_encodes_blank_canvas :
  handleSave P (mounted P) =
    match encode P "image/png" (mkImageData 300 150 (blank 300 150)) with
    | Some bytes => SaveDelivered (mkBlob "image/png" bytes)
    | None => SaveNoBlob
    end /\
  (forall e, handleSave P (mounted P) <> SaveThrew e) /\
  (forall img a, handleSave P (mkEditor P img None a) = SaveSkipped).
Proof.
  assert (handleSave P (mounted P) =
    match encode P "image/png" (mkImageData 300 150 (blank 300 150)) with
    | Some bytes => SaveDelivered (mkBlob "image/png" bytes)
    | None => SaveNoBlob
    end) as E.
  { unfold handleSave, mounted, toBlob, surface. cbn -[blank encode].
    destruct (encode P _ _); reflexivity. }
  split; [exact E|]. split.
  - intros e. rewrite E. destruct (encode P _ _); discriminate.
  - reflexivity.
Qed.

End Saving.

Section Setters.
Import JS Adjust.

(** C2, as the program has it: a slider setter stores the number it is given
    unchanged, whatever the number, and changes no other parameter; rotation
    changes only by [handleRotate], which stores [(r + 90) % 360], and zoom
    only by the two zoom buttons, which store [Math.min(z + 0.1, 3)] and
    [Math.max(z - 0.1, 0.5)]; none of them touches the four slider
    parameters. *)
Theorem slider_setters_store_input (p : slider) (v : number) (s : AdjustmentState) :
  slider_get p (slider_set p v s) = v /\
  (forall q, q <> p -> slider_get q (slider_set p v s) = slider_get q s) /\
  rotation (slider_set p v s) = rotation s /\
  zoom (slider_set p v s) = zoom s /\
  rotation (handleRotate s) = Z.rem (rotation s + 90) 360 /\
  zoom (handleZoomIn s) = Math_min (zoom s + zoom_delta) 3 /\
  zoom (handleZoomOut s) = Math_max (zoom s - zoom_delta) 0.5 /\
  slider_get p (handleRotate s) = slider_get p s /\
  slider_get p (handleZoomIn s) = slider_get p s /\
  slider_get p (handleZoomOut s) = slider_get p s.
Proof.
  split; [destruct p; reflexivity|]. split.
  - intros q Hq. destruct p, q; try reflexivity; contradiction.
  - destruct p; repeat split; reflexivity.
Qed.

(** C6: on a rotation among 0, 90, 180, 270, [handleRotate] stores
    [(r + 90) mod 360], which is again one of them, and four calls restore the
    rotation they started from. *)
Theorem rotate_step_cycle (s : AdjustmentState) :
  In (rotation s) quarter_turns ->
  rotation (handleRotate s) = (rotation s + 90) mod 360 /\
  In (rotation (handleRotate s)) quarter_turns /\
  rotation (handleRotate (handleRotate (handleRotate (handleRotate s)))) =
    rotation s.
Proof.
  intros Hr. simpl in Hr. simpl.
  destruct Hr as [E | [E | [E | [E | []]]]]; rewrite <- E;
    vm_compute; intuition congruence.
Qed.

Lemma rotate_step_cycle_witness :
  rotation (handleRotate (handleRotate (handleRotate (handleRotate initial)))) = 0.
Proof.
  apply (rotate_step_cycle initial). left. reflexivity.
Defined.

End Setters.

Section Classification.
Import Gallery.
Local Open Scope string_scope.

Lemma matches_video_suffix s :
  matches_video s = true <->
  exists p ext, In ext video_extensions /\ s = p ++ ext.
Proof.
  induction s as [|c s IH].
  - split; [discriminate|].
    intros (p & ext & Hin & E). destruct p; simpl in E.
    + subst ext. simpl in Hin. intuition discriminate.
    + discriminate.
  - cbn [matches_video]. rewrite orb_true_iff, IH, existsb_exists. split.
    + intros [(ext & Hin & E) | (p & ext & Hin & E)].
      * apply String.eqb_eq in E. exists "", ext. split; [exact Hin|exact E].
      * exists (String c p), ext. split; [exact Hin|]. simpl. rewrite E. reflexivity.
    + intros (p & ext & Hin & E). destruct p as [|c' p]; simpl in E.
      * left. exists ext. split; [exact Hin|]. apply String.eqb_eq. exact E.
      * right. injection E as _ E. exists p, ext. split; [exact Hin|exact E].
Qed.

Lemma toLowerCase_app s t :
  toLowerCase (s ++ t) = toLowerCase s ++ toLowerCase t.
Proof.
  induction s as [|c s IH]; simpl; [reflexivity|]. rewrite IH. reflexivity.
Qed.

Lemma toLowerCase_split s p e :
  toLowerCase s = p ++ e ->
  exists p' t, s = p' ++ t /\ toLowerCase p' = p /\ toLowerCase t = e.
Proof.
  revert s. induction p as [|c p IH]; intros s E.
  - exists "", s. repeat split. exact E.
  - destruct s as [|c' s]; [discriminate|].
    simpl in E. injection E as Ec E.
    destruct (IH s E) as (p' & t & -> & Hp & Ht).
    exists (String c' p'), t. repeat split; [|exact Ht].
    simpl. rewrite Ec, Hp. reflexivity.
Qed.

Lemma video_extensions_lower ext :
  In ext video_extensions -> toLowerCase ext = ext.
Proof.
  simpl. intros [<- | [<- | [<- | []]]]; reflexivity.
Qed.

Lemma isVideo_ends_with file :
  isVideo file = true <->
  exists ext, In ext video_extensions /\ ends_with_ci (file_name file) ext.
Proof.
  unfold isVideo. rewrite matches_video_suffix. split.
  - intros (p & ext & Hin & E). exists ext. split; [exact Hin|].
    destruct (toLowerCase_split _ _ _ E) as (p' & t & En & _ & Ht).
    exists p', t. split; [exact En|].
    rewrite (video_extensions_lower ext Hin). exact Ht.
  - intros (ext & Hin & p & t & En & Ht).
    exists (toLowerCase p), ext. split; [exact Hin|].
    rewrite En, toLowerCase_app, Ht, (video_extensions_lower ext Hin).
    reflexivity.
Qed.

Lemma is_image_type m : is_image m = true <-> type m = image.
Proof. unfold is_image. destruct (type m); split; congruence. Qed.

(** C9: a stored file is classified as video exactly when its name ends,
    case ignored, with .mp4, .webm or .mov, and as image otherwise; the 3D
    viewer receives, and the edit button is shown for, exactly the items
    classified as image. *)
Theorem classification_by_extension
    (getPublicUrl : string -> string) (user_id : string)
    (file : FileObject) (media : list MediaItem) (m : MediaItem) :
  (type (toMediaItem getPublicUrl user_id file) = video <->
     exists ext, In ext video_extensions /\ ends_with_ci (file_name file) ext) /\
  (type (toMediaItem getPublicUrl user_id file) = image <->
     ~ exists ext, In ext video_extensions /\ ends_with_ci (file_name file) ext) /\
  name (toMediaItem getPublicUrl user_id file) = file_name file /\
  (In m (viewer_media media) <-> In m media /\ type m = image) /\
  (In m (editable media) <-> In m media /\ type m = image).
Proof.
  pose proof (isVideo_ends_with file) as Hv.
  unfold toMediaItem. cbn [type name].
  repeat split.
  - destruct (isVideo file); [intros _; apply Hv; reflexivity|discriminate].
  - intros H. apply Hv in H. rewrite H. reflexivity.
  - destruct (isVideo file); [discriminate|].
    intros _ H. apply Hv in H. discriminate.
  - intros H. destruct (isVideo file); [|reflexivity].
    exfalso. apply H, Hv. reflexivity.
  - unfold viewer_media in H. apply filter_In in H. tauto.
  - unfold viewer_media in H. apply filter_In in H. apply is_image_type. tauto.
  - intros [Hin Ht]. unfold viewer_media. apply filter_In.
    split; [exact Hin|apply is_image_type; exact Ht].
  - unfold editable in H. apply filter_In in H. tauto.
  - unfold editable in H. apply filter_In in H. apply is_image_type. tauto.
  - intros [Hin Ht]. unfold editable. apply filter_In.
    split; [exact Hin|apply is_image_type; exact Ht].
Qed.

End Classification.

(** ** The default render on the reference browser

    The transformation the default render builds is the identity matrix, and
    drawing through it samples every canvas pixel from the image pixel of the
    same position.  The facts about doubles are tables over the sides
    0..[canvas_limit], evaluated. *)

Section ReferenceIdentity.
Import JS Adjust Sharpen Canvas ImageEditor RefPlatform Reproduction.














End ReferenceIdentity.
(** The filter 100% / 100% / 100% leaves every byte as it is, and a pixel
    composited over a blank one is itself unless it is fully transparent and
    carries colour. *)

Section ReferencePixels.
Import JS Adjust Sharpen SharpenCases Canvas ImageEditor RefPlatform Reproduction.










End ReferencePixels.
(** Pixel by pixel, the draw of a reproducible image through the identity
    on a cleared canvas writes the pixels of the image. *)

Section ReferenceRaster.
Import JS Adjust Sharpen SharpenCases Canvas ImageEditor RefPlatform Reproduction.








End ReferenceRaster.
Section ReferenceRender.
Import JS Adjust Sharpen SharpenCases Canvas ImageEditor RefPlatform Reproduction.





End ReferenceRender.

(** * Further properties of the code *)

Section SharpenProperties.
Import JS Sharpen SharpenCases.

Lemma sample_of_lookup d x y c b :
  0 <= (y * width d + x) * 4 + c ->
  data d !! offset d x y c = Some b ->
  sample d x y c = of_Z b.
Proof.
  intros H0 Hb. unfold sample, typed_get.
  destruct (Z.ltb_spec ((y * width d + x) * 4 + c) 0); [lia|].
  unfold offset in Hb. rewrite Hb. reflexivity.
Qed.

Lemma sample_byte d x y c :
  wf_ImageData d -> 0 <= x < width d -> 0 <= y < height d -> 0 <= c < 4 ->
  exists b, 0 <= b <= 255 /\ data d !! offset d x y c = Some b /\
            sample d x y c = of_Z b.
Proof.
  intros (Hw & Hh & Hlen & Hbytes) Hx Hy Hc.
  assert (offset d x y c < length (data d))%nat as Hin.
  { rewrite Hlen. unfold offset. nia. }
  destruct (lookup_lt_is_Some_2 _ _ Hin) as [b Hb].
  exists b. split; [|split; [exact Hb|]].
  - rewrite Forall_forall in Hbytes. apply Hbytes.
    apply list_elem_of_lookup. eauto.
  - apply sample_of_lookup; [nia|exact Hb].
Qed.

Lemma byte_times_zero_table :
  map (fun b => (of_Z b * 0)%float) bytes = map (fun _ => 0%float) bytes.
Proof. vm_compute. reflexivity. Qed.

Lemma byte_times_zero b : 0 <= b <= 255 -> (of_Z b * 0)%float = 0%float.
Proof.
  intros Hb.
  apply (proj1 (@map_ext_in_iff _ _ _ _ _) byte_times_zero_table).
  apply In_range. lia.
Qed.

Lemma byte_times_minus_zero_table :
  map (fun b => (of_Z b * - 0)%float) bytes = map (fun _ => (- 0)%float) bytes.
Proof. vm_compute. reflexivity. Qed.

Lemma byte_times_minus_zero b :
  0 <= b <= 255 -> (of_Z b * - 0)%float = (- 0)%float.
Proof.
  intros Hb.
  apply (proj1 (@map_ext_in_iff _ _ _ _ _) byte_times_minus_zero_table).
  apply In_range. lia.
Qed.

Lemma flat_sum_table :
  forallb (fun n =>
    forallb (fun b => clamp_sample (flat_sum (of_Z n / 100) (of_Z b)) =? b) bytes)
    slider_steps = true.
Proof. vm_compute. reflexivity. Qed.

Lemma flat_sum_byte n b :
  1 <= n <= 100 -> 0 <= b <= 255 ->
  clamp_sample (flat_sum (of_Z n / 100) (of_Z b)) = b.
Proof.
  intros Hn Hb. pose proof flat_sum_table as T.
  rewrite forallb_forall in T.
  specialize (T n (proj2 (In_range 1 101 n) ltac:(lia))).
  rewrite forallb_forall in T.
  apply Z.eqb_eq, T, In_range. lia.
Qed.

Lemma zero_sum_table :
  forallb (fun b => clamp_sample (zero_sum (of_Z b)) =? b) bytes = true.
Proof. vm_compute. reflexivity. Qed.

Lemma zero_sum_byte b : 0 <= b <= 255 -> clamp_sample (zero_sum (of_Z b)) = b.
Proof.
  intros Hb. pose proof zero_sum_table as T.
  rewrite forallb_forall in T.
  apply Z.eqb_eq, T, In_range. lia.
Qed.

(** The convolution at an interior pixel, with every sample read as the
    byte it is. *)
Lemma convolution_of_bytes weight d x y c :
  wf_ImageData d -> interior d x y -> 0 <= c < 4 ->
  exists b1 b2 b3 b4 b5 b6 b7 b8 b9,
    Forall (fun b => 0 <= b <= 255) [b1; b2; b3; b4; b5; b6; b7; b8; b9] /\
    map (fun o => data d !! offset d (x + snd o) (y + fst o) c) neighbourhood =
      map Some [b1; b2; b3; b4; b5; b6; b7; b8; b9] /\
    convolution3x3 weight d x y c =
      (0 + of_Z b1 * weight (-1)%Z (-1)%Z + of_Z b2 * weight (-1)%Z 0%Z
         + of_Z b3 * weight (-1)%Z 1%Z + of_Z b4 * weight 0%Z (-1)%Z
         + of_Z b5 * weight 0%Z 0%Z + of_Z b6 * weight 0%Z 1%Z
         + of_Z b7 * weight 1%Z (-1)%Z + of_Z b8 * weight 1%Z 0%Z
         + of_Z b9 * weight 1%Z 1%Z)%float.
Proof.
  intros Hwf [Hx Hy] Hc.
  destruct (sample_byte d (x + -1) (y + -1) c Hwf) as (b1 & B1 & L1 & S1); try lia.
  destruct (sample_byte d (x + 0) (y + -1) c Hwf) as (b2 & B2 & L2 & S2); try lia.
  destruct (sample_byte d (x + 1) (y + -1) c Hwf) as (b3 & B3 & L3 & S3); try lia.
  destruct (sample_byte d (x + -1) (y + 0) c Hwf) as (b4 & B4 & L4 & S4); try lia.
  destruct (sample_byte d (x + 0) (y + 0) c Hwf) as (b5 & B5 & L5 & S5); try lia.
  destruct (sample_byte d (x + 1) (y + 0) c Hwf) as (b6 & B6 & L6 & S6); try lia.
  destruct (sample_byte d (x + -1) (y + 1) c Hwf) as (b7 & B7 & L7 & S7); try lia.
  destruct (sample_byte d (x + 0) (y + 1) c Hwf) as (b8 & B8 & L8 & S8); try lia.
  destruct (sample_byte d (x + 1) (y + 1) c Hwf) as (b9 & B9 & L9 & S9); try lia.
  exists b1, b2, b3, b4, b5, b6, b7, b8, b9. split; [|split].
  - repeat first [apply Forall_nil_2 | apply Forall_cons_2; [assumption|]].
  - cbn [map neighbourhood fst snd].
    rewrite L1, L2, L3, L4, L5, L6, L7, L8, L9. reflexivity.
  - unfold convolution3x3. cbn [fold_left neighbourhood fst snd].
    rewrite S1, S2, S3, S4, S5, S6, S7, S8, S9. reflexivity.
Qed.

Lemma typed_set_bytes a idx v :
  Forall (fun b => 0 <= b <= 255) a ->
  Forall (fun b => 0 <= b <= 255) (typed_set a idx v).
Proof.
  intros Ha. unfold typed_set. destruct (idx <? 0); [exact Ha|].
  apply Forall_insert; [exact Ha|apply ToUint8Clamp_byte].
Qed.

Lemma fold_left_Forall {K} (Q : Z -> Prop) (step : K -> list Z -> list Z) keys out :
  (forall k o, Forall Q o -> Forall Q (step k o)) ->
  Forall Q out -> Forall Q (fold_left (fun o k => step k o) keys out).
Proof.
  intros Hs. revert out. induction keys as [|k keys IH]; intros out Ho; simpl.
  - exact Ho.
  - apply IH, Hs, Ho.
Qed.

(** X1: the output of [applySharpen] has the dimensions of its input, four
    bytes per pixel, and every byte in 0..255, whatever the amount. *)
Theorem applySharpen_well_formed (d : ImageData) (amount : number) :
  1 <= width d -> 1 <= height d ->
  wf_ImageData (applySharpen d amount) /\
  width (applySharpen d amount) = width d /\
  height (applySharpen d amount) = height d.
Proof.
  intros Hw Hh. split; [|split; reflexivity].
  split; [exact Hw|]. split; [exact Hh|]. split.
  - unfold applySharpen. cbn [data width height new_ImageData].
    rewrite (run_length (fun y o => sharpen_row (data d) (width d) (kernel amount) y o)).
    + apply length_replicate.
    + intros. apply sharpen_row_length.
  - unfold applySharpen. cbn [data width height new_ImageData].
    apply (fold_left_Forall _ (fun y o => sharpen_row (data d) (width d) (kernel amount) y o)).
    + intros y o Ho. unfold sharpen_row.
      apply (fold_left_Forall _ (fun x o => sharpen_pixel (data d) (width d) (kernel amount) y x o));
        [|exact Ho].
      intros x o' Ho'. rewrite sharpen_pixel_unfold.
      repeat apply typed_set_bytes. exact Ho'.
    + apply Forall_replicate. lia.
Qed.

(** X2: for a slider value [n] in 1..100, a colour channel that holds the
    same byte at an interior pixel and at its four orthogonal neighbours keeps
    that byte at the pixel. *)
Theorem sharpen_keeps_flat_channel (d : ImageData) (n x y c b : Z) :
  wf_ImageData d -> interior d x y -> 0 <= c < 3 -> 1 <= n <= 100 ->
  flat_at d x y c b ->
  data (applySharpen d (of_Z n / 100)) !! offset d x y c = Some b.
Proof.
  intros Hwf Hint Hc Hn Hflat.
  destruct (convolution_of_bytes (kernel_weight (of_Z n / 100)) d x y c Hwf Hint)
    as (b1 & b2 & b3 & b4 & b5 & b6 & b7 & b8 & b9 & HB & HL & HS); [lia|].
  unfold flat_at, cross in Hflat.
  cbn [map neighbourhood fst snd] in HL.
  repeat match goal with
         | H : Forall _ (_ :: _) |- _ => apply Forall_cons in H; destruct H
         end.
  repeat match goal with
         | H : ?l = Some ?u, E : _ :: _ = _ :: _ |- _ =>
             injection E as ? E
         end.
  cbn [fst snd] in *.
  assert (b2 = b /\ b4 = b /\ b5 = b /\ b6 = b /\ b8 = b) as (-> & -> & -> & -> & ->)
    by (repeat split; congruence).
  rewrite applySharpen_interior by (destruct Hwf as (? & ?); try assumption; lia).
  unfold pixel_value. destruct (Z.ltb_spec c 3); [|lia].
  rewrite convolve_kernel, HS.
  change (kernel_weight (of_Z n / 100) (-1) (-1)) with 0%float.
  change (kernel_weight (of_Z n / 100) (-1) 1) with 0%float.
  change (kernel_weight (of_Z n / 100) 1 (-1)) with 0%float.
  change (kernel_weight (of_Z n / 100) 1 1) with 0%float.
  rewrite !byte_times_zero by assumption.
  f_equal. apply flat_sum_byte; assumption.
Qed.

(** X3: with amount 0 the kernel is the identity: every byte of every
    interior pixel of the output is the input's. *)
Theorem sharpen_amount_zero_interior (d : ImageData) (x y c : Z) :
  wf_ImageData d -> interior d x y -> 0 <= c < 4 ->
  data (applySharpen d 0) !! offset d x y c = data d !! offset d x y c.
Proof.
  intros Hwf Hint Hc.
  destruct (convolution_of_bytes (kernel_weight 0) d x y c Hwf Hint Hc)
    as (b1 & b2 & b3 & b4 & b5 & b6 & b7 & b8 & b9 & HB & HL & HS).
  cbn [map neighbourhood fst snd] in HL.
  repeat match goal with
         | H : Forall _ (_ :: _) |- _ => apply Forall_cons in H; destruct H
         end.
  injection HL as _ _ _ _ L5 _ _ _ _.
  replace (offset d (x + 0) (y + 0) c) with (offset d x y c) in L5
    by (unfold offset; f_equal; lia).
  rewrite applySharpen_interior by (destruct Hwf as (? & ?); try assumption; lia).
  rewrite L5. unfold pixel_value. destruct (Z.ltb_spec c 3).
  - rewrite convolve_kernel, HS.
    change (kernel_weight 0 (-1) (-1)) with 0%float.
    change (kernel_weight 0 (-1) 1) with 0%float.
    change (kernel_weight 0 1 (-1)) with 0%float.
    change (kernel_weight 0 1 1) with 0%float.
    change (kernel_weight 0 (-1) 0) with (- 0)%float.
    change (kernel_weight 0 0 (-1)) with (- 0)%float.
    change (kernel_weight 0 0 1) with (- 0)%float.
    change (kernel_weight 0 1 0) with (- 0)%float.
    change (kernel_weight 0 0 0) with (1 + 4 * 0)%float.
    rewrite !byte_times_zero, !byte_times_minus_zero by assumption.
    f_equal. apply zero_sum_byte. assumption.
  - assert (c = 3) as -> by lia.
    change (typed_get (data d) ((y * width d + x) * 4 + 3)) with (sample d x y 3).
    rewrite (sample_of_lookup d x y 3 b5); [|destruct Hint; nia|exact L5].
    f_equal. apply byte_roundtrip. assumption.
Qed.

End SharpenProperties.

Section RenderProperties.
Import JS Adjust Sharpen Canvas ImageEditor.
Variable P : Platform.

Lemma composite_forgets_canvas a img (cv cv' : CanvasEl P) :
  composite P a img cv = composite P a img cv'.
Proof. reflexivity. Qed.

Lemma composite_origin_clean a img (cv : CanvasEl P) :
  cv_origin_clean P (composite P a img cv) = true.
Proof. reflexivity. Qed.

Lemma composite_context a img (cv : CanvasEl P) :
  saved P (cv_ctx P (composite P a img cv)) = [(ctm_identity P, [])].
Proof. reflexivity. Qed.

Lemma composite_restored a img (cv : CanvasEl P) :
  cv_ctx P (restore P (composite P a img cv)) = default_context P.
Proof.
  unfold restore, with_ctx. cbn [cv_ctx].
  rewrite composite_context. reflexivity.
Qed.

(** X4: a render does not depend on what the canvas held before, and
    rendering again with the same image and parameters changes nothing. *)
Theorem render_idempotent (ed : Editor P) (img : HTMLImage) (cv cv' : CanvasEl P)
    (a : AdjustmentState) :
  applyFilters P (mkEditor P (Some img) (Some cv) a) =
    applyFilters P (mkEditor P (Some img) (Some cv') a) /\
  applyFilters P (fst (applyFilters P ed)) = applyFilters P ed.
Proof.
  split.
  - unfold applyFilters. cbn [image canvasRef adjust].
    rewrite (composite_forgets_canvas a img cv cv'). reflexivity.
  - destruct ed as [[i|] [c|] a0]; try reflexivity.
    unfold applyFilters at 2. cbn [image canvasRef adjust].
    destruct (0 <? sharpness a0)%float eqn:Hs.
    + destruct (getImageData P (composite P a0 i c)) eqn:Hg; cbn [fst].
      * unfold applyFilters. cbn [image canvasRef adjust].
        rewrite Hs.
        rewrite (composite_forgets_canvas a0 i _ c), Hg. reflexivity.
      * unfold applyFilters. cbn [image canvasRef adjust].
        rewrite Hs.
        rewrite (composite_forgets_canvas a0 i _ c), Hg. reflexivity.
    + cbn [fst]. unfold applyFilters. cbn [image canvasRef adjust].
      rewrite Hs. rewrite (composite_forgets_canvas a0 i _ c). reflexivity.
Qed.

(** X5: [applyFilters] raises exactly when an image is loaded, the canvas is
    mounted, [sharpness > 0] and the image has a zero dimension; the
    exception is [IndexSizeError]. *)
Theorem render_throws_iff (ed : Editor P) :
  (snd (applyFilters P ed) = Throws IndexSizeError <->
   exists img cv,
     image P ed = Some img /\ canvasRef P ed = Some cv /\
     (0 <? sharpness (adjust P ed))%float = true /\
     (img_width img = 0 \/ img_height img = 0)) /\
  (snd (applyFilters P ed) = Normal \/ snd (applyFilters P ed) = Throws IndexSizeError).
Proof.
  unfold applyFilters.
  destruct (image P ed) as [img|]; [|split; [split; [discriminate|]|left; reflexivity]].
  2:{ intros (? & ? & ? & _). discriminate. }
  destruct (canvasRef P ed) as [cv|]; [|split; [split; [discriminate|]|left; reflexivity]].
  2:{ intros (? & ? & _ & ? & _). discriminate. }
  destruct (0 <? sharpness (adjust P ed))%float;
    [|split; [split; [discriminate|]|left; reflexivity]].
  2:{ intros (? & ? & _ & _ & ? & _). discriminate. }
  unfold getImageData. rewrite composite_width, composite_height.
  destruct (Z.eqb_spec (img_width img) 0) as [Ew|Ew];
    destruct (Z.eqb_spec (img_height img) 0) as [Eh|Eh]; cbn [orb snd].
  - split; [split; [intros _|reflexivity]|right; reflexivity].
    exists img, cv. tauto.
  - split; [split; [intros _|reflexivity]|right; reflexivity].
    exists img, cv. tauto.
  - split; [split; [intros _|reflexivity]|right; reflexivity].
    exists img, cv. tauto.
  - split; [split; [discriminate|]|left; reflexivity].
    intros (i & c & Hi & _ & _ & Hz). injection Hi as <-. lia.
Qed.

(** X6: after a render the canvas has the dimensions of the image, whatever
    the rotation and the zoom; it is origin-clean; and when the render
    completed normally the context is back in its default state, while after
    the exception the state pushed by [save] is still on the stack. *)
Theorem render_leaves_canvas_sized (ed : Editor P) img cv :
  image P ed = Some img -> canvasRef P ed = Some cv ->
  exists cv',
    fst (applyFilters P ed) = mkEditor P (Some img) (Some cv') (adjust P ed) /\
    cv_width P cv' = img_width img /\ cv_height P cv' = img_height img /\
    cv_origin_clean P cv' = true /\
    match snd (applyFilters P ed) with
    | Normal => cv_ctx P cv' = default_context P
    | Throws _ => saved P (cv_ctx P cv') = [(ctm_identity P, [])]
    end.
Proof.
  intros Hi Hc. unfold applyFilters. rewrite Hi, Hc.
  destruct (0 <? sharpness (adjust P ed))%float.
  - destruct (getImageData P (composite P (adjust P ed) img cv)) eqn:Hg; cbn [fst snd].
    + eexists. split; [reflexivity|].
      unfold restore, putImageData, with_ctx.
      cbn [cv_width cv_height cv_origin_clean cv_ctx].
      rewrite composite_width, composite_height, composite_origin_clean,
        composite_context.
      repeat split; reflexivity.
    + eexists. split; [reflexivity|].
      rewrite composite_width, composite_height, composite_origin_clean,
        composite_context.
      repeat split; reflexivity.
  - cbn [fst snd]. eexists. split; [reflexivity|].
    rewrite composite_restored.
    unfold restore, with_ctx. cbn [cv_width cv_height cv_origin_clean].
    rewrite composite_width, composite_height, composite_origin_clean.
    repeat split; reflexivity.
Qed.

Lemma rendered_canvas (ed : Editor P) img cv :
  image P ed = Some img -> canvasRef P ed = Some cv ->
  exists cv',
    fst (applyFilters P ed) = mkEditor P (Some img) (Some cv') (adjust P ed) /\
    cv_width P cv' = img_width img /\ cv_height P cv' = img_height img /\
    cv_origin_clean P cv' = true.
Proof.
  intros Hi Hc. unfold applyFilters. rewrite Hi, Hc.
  destruct (0 <? sharpness (adjust P ed))%float;
    [destruct (getImageData P (composite P (adjust P ed) img cv))|];
    cbn [fst]; eexists; (split; [reflexivity|]);
    unfold restore, putImageData, with_ctx;
    cbn [cv_width cv_height cv_origin_clean];
    rewrite composite_width, composite_height, composite_origin_clean;
    repeat split; reflexivity.
Qed.

(** X7: saving after a render of a loaded image never raises; it delivers the
    image/png encoding of exactly the rendered surface, and delivers nothing
    when the image has a zero dimension or the encoder yields no blob. *)
Theorem save_after_render (ed : Editor P) img cv :
  image P ed = Some img -> canvasRef P ed = Some cv ->
  handleSave P (fst (applyFilters P ed)) =
    if (img_width img =? 0) || (img_height img =? 0) then SaveNoBlob
    else match rendered P ed with
         | Some out =>
             match encode P "image/png" out with
             | Some bytes => SaveDelivered (mkBlob "image/png" bytes)
             | None => SaveNoBlob
             end
         | None => SaveNoBlob
         end.
Proof.
  intros Hi Hc.
  destruct (rendered_canvas ed img cv Hi Hc) as (cv' & E & Hw & Hh & Ho).
  unfold rendered. rewrite E. cbn [canvasRef].
  unfold handleSave, toBlob. cbn [canvasRef].
  rewrite Ho, Hw, Hh. cbn [negb].
  destruct ((img_width img =? 0) || (img_height img =? 0)); [reflexivity|].
  destruct (encode P "image/png" (surface P cv')); reflexivity.
Qed.

End RenderProperties.

Section ControlProperties.
Import JS Adjust Controls.

Lemma run_events_snoc es e s :
  run_events (es ++ [e]) s = handle e (run_events es s).
Proof. unfold run_events. rewrite fold_left_app. reflexivity. Qed.

Lemma rotations_snoc es e :
  rotations (es ++ [e]) = (rotations es + if is_rotate e then 1 else 0)%nat.
Proof.
  unfold rotations. rewrite List.filter_app, length_app. simpl.
  destruct (is_rotate e); reflexivity.
Qed.

Lemma rotate_step_count k :
  0 <= k -> rotate_step (90 * (k mod 4)) = 90 * ((k + 1) mod 4).
Proof.
  intros Hk. unfold rotate_step.
  assert (0 <= k mod 4 < 4) as Hm by (apply Z.mod_pos_bound; lia).
  rewrite <- (Zplus_mod_idemp_l k 1 4).
  assert (k mod 4 = 0 \/ k mod 4 = 1 \/ k mod 4 = 2 \/ k mod 4 = 3)
    as [-> | [-> | [-> | ->]]] by lia; reflexivity.
Qed.

(** X8: whatever sequence of slider moves and button presses the user makes
    from the initial state, the rotation is 90 times the number of presses
    of the rotate button modulo 4, and the zoom stays within [0.5, 3]. *)
Theorem controls_keep_rotation_and_zoom (es : list event) :
  rotation (run_events es initial) = 90 * (Z.of_nat (rotations es) mod 4) /\
  In (rotation (run_events es initial)) quarter_turns /\
  zoom_reachable (zoom (run_events es initial)) /\
  in_interval 0.5 3 (zoom (run_events es initial)).
Proof.
  assert (rotation (run_events es initial) = 90 * (Z.of_nat (rotations es) mod 4) /\
          zoom_reachable (zoom (run_events es initial))) as [Hr Hz].
  { induction es as [|e es [IHr IHz]] using rev_ind.
    - split; [reflexivity|apply zr_initial].
    - rewrite run_events_snoc, rotations_snoc.
      destruct e as [p v| | |]; cbn [handle is_rotate].
      + rewrite Nat.add_0_r. split; destruct p; assumption.
      + split; [|exact IHz]. cbn [handleRotate rotation].
        rewrite IHr, rotate_step_count by lia.
        do 2 f_equal. lia.
      + rewrite Nat.add_0_r. split; [exact IHr|]. apply zr_in, IHz.
      + rewrite Nat.add_0_r. split; [exact IHr|]. apply zr_out, IHz. }
  split; [exact Hr|]. split; [|split; [exact Hz|]].
  - rewrite Hr.
    assert (0 <= Z.of_nat (rotations es) mod 4 < 4) as Hm
      by (apply Z.mod_pos_bound; lia).
    assert (Z.of_nat (rotations es) mod 4 = 0 \/ Z.of_nat (rotations es) mod 4 = 1 \/
            Z.of_nat (rotations es) mod 4 = 2 \/ Z.of_nat (rotations es) mod 4 = 3)
      as [-> | [-> | [-> | ->]]] by lia; simpl; tauto.
  - pose proof zoom_orbit_bounds as Hb. rewrite forallb_forall in Hb.
    specialize (Hb _ (zoom_reachable_orbit _ Hz)). unfold zoom_ok in Hb.
    apply andb_prop in Hb. exact Hb.
Qed.

Lemma zoom_orbit_saturates_in :
  map (Nat.iter 25 zoom_in_step) zoom_orbit = map (fun _ => 3%float) zoom_orbit.
Proof. vm_compute. reflexivity. Qed.

Lemma zoom_orbit_saturates_out :
  map (Nat.iter 25 zoom_out_step) zoom_orbit = map (fun _ => 0.5%float) zoom_orbit.
Proof. vm_compute. reflexivity. Qed.

Lemma zoom_orbit_monotone :
  forallb (fun z => PrimFloat.leb z (zoom_in_step z) &&
                    PrimFloat.leb (zoom_out_step z) z) zoom_orbit = true.
Proof. vm_compute. reflexivity. Qed.

(** X9: from any zoom the buttons can reach, 25 presses of zoom-in give
    exactly 3 and 25 presses of zoom-out give exactly 0.5; at 3 zoom-in has
    no effect and at 0.5 zoom-out has none; zoom-in never lowers the zoom and
    zoom-out never raises it. *)
Theorem zoom_buttons_saturate (z : number) :
  zoom_reachable z ->
  Nat.iter 25 zoom_in_step z = 3%float /\
  Nat.iter 25 zoom_out_step z = 0.5%float /\
  zoom_in_step 3 = 3%float /\
  zoom_out_step 0.5 = 0.5%float /\
  PrimFloat.leb z (zoom_in_step z) = true /\
  PrimFloat.leb (zoom_out_step z) z = true.
Proof.
  intros Hz. pose proof (zoom_reachable_orbit _ Hz) as Hin.
  split; [exact (proj1 (@map_ext_in_iff _ _ _ _ _) zoom_orbit_saturates_in _ Hin)|].
  split; [exact (proj1 (@map_ext_in_iff _ _ _ _ _) zoom_orbit_saturates_out _ Hin)|].
  split; [vm_compute; reflexivity|]. split; [vm_compute; reflexivity|].
  pose proof zoom_orbit_monotone as Hm. rewrite forallb_forall in Hm.
  specialize (Hm _ Hin). apply andb_prop in Hm. exact Hm.
Qed.

End ControlProperties.

Section StorageProperties.
Import Gallery Storage.
Local Open Scope string_scope.

Lemma lower_dot c : Ascii.eqb (lower c) dot = Ascii.eqb c dot.
Proof. destruct c as [[] [] [] [] [] [] [] []]; reflexivity. Qed.

Lemma has_dot_lower s : has_dot (toLowerCase s) = has_dot s.
Proof.
  induction s as [|c s IH]; [reflexivity|].
  simpl. rewrite lower_dot, IH. reflexivity.
Qed.

Lemma has_dot_app s t : has_dot (s ++ t) = has_dot s || has_dot t.
Proof.
  induction s as [|c s IH]; [reflexivity|].
  simpl. rewrite IH, orb_assoc. reflexivity.
Qed.

Lemma last_dot_unique a a' b b' :
  has_dot b = false -> has_dot b' = false ->
  a ++ String dot b = a' ++ String dot b' -> a = a' /\ b = b'.
Proof.
  intros Hb Hb'. revert a'. induction a as [|c a IH]; intros [|c' a'] E; simpl in E.
  - injection E as E. split; [reflexivity|exact E].
  - injection E as _ E. rewrite E, has_dot_app in Hb. simpl in Hb.
    rewrite orb_true_r in Hb. discriminate.
  - injection E as _ E. rewrite <- E, has_dot_app in Hb'. simpl in Hb'.
    rewrite orb_true_r in Hb'. discriminate.
  - injection E as -> E. destruct (IH _ E) as [-> ->]. split; reflexivity.
Qed.

Lemma split_dot_shape s :
  (has_dot s = false -> split_dot s = [s]) /\
  (has_dot s = true ->
     (2 <= length (split_dot s))%nat /\
     exists r, s = r ++ String dot (List.last (split_dot s) "")) /\
  has_dot (List.last (split_dot s) "") = false.
Proof.
  induction s as [|c s (IHn & IHd & IHl)].
  - repeat split; try reflexivity; discriminate.
  - cbn [split_dot has_dot]. destruct (Ascii.eqb_spec c dot) as [-> | Hc].
    + cbn [orb]. split; [discriminate|].
      destruct (has_dot s) eqn:Hs.
      * destruct (IHd eq_refl) as (Hlen & r & Hr).
        destruct (split_dot s) as [|seg rest] eqn:Es; [simpl in Hlen; lia|].
        split; [|exact IHl]. intros _. split; [simpl; lia|].
        exists (String dot r). simpl. f_equal. exact Hr.
      * rewrite (IHn eq_refl) in *.
        split; [|exact IHl]. intros _. split; [simpl; lia|].
        exists "". reflexivity.
    + cbn [orb]. destruct (has_dot s) eqn:Hs.
      * destruct (IHd eq_refl) as (Hlen & r & Hr).
        destruct (split_dot s) as [|seg [|seg' rest]] eqn:Es;
          [simpl in Hlen; lia|simpl in Hlen; lia|].
        split; [discriminate|]. split; [|exact IHl].
        intros _. split; [simpl; lia|].
        exists (String c r). simpl. f_equal. exact Hr.
      * rewrite (IHn eq_refl) in *. simpl.
        split; [reflexivity|]. split; [discriminate|].
        simpl. destruct (Ascii.eqb_spec c dot); [contradiction|exact Hs].
Qed.

Lemma fileExt_no_dot name : has_dot (fileExt name) = false.
Proof. apply split_dot_shape. Qed.

Lemma fileExt_whole name : has_dot name = false -> fileExt name = name.
Proof.
  intros H. unfold fileExt.
  rewrite (proj1 (split_dot_shape name) H). reflexivity.
Qed.

Lemma fileExt_split name :
  has_dot name = true -> exists r, name = r ++ "." ++ fileExt name.
Proof.
  intros H. destruct (proj1 (proj2 (split_dot_shape name)) H) as (_ & r & Hr).
  exists r. exact Hr.
Qed.

Lemma video_extension_type e :
  In e video_extensions <-> exists t, In t video_types /\ e = String dot t.
Proof.
  unfold video_extensions, video_types. simpl. split.
  - intros [<- | [<- | [<- | []]]]; eexists; split; try reflexivity; tauto.
  - intros (t & [<- | [<- | [<- | []]]] & ->); tauto.
Qed.

Lemma video_types_no_dot t : In t video_types -> has_dot t = false.
Proof. simpl. intros [<- | [<- | [<- | []]]]; reflexivity. Qed.

Lemma matches_video_last_segment p ext :
  has_dot ext = false ->
  matches_video (toLowerCase (p ++ "." ++ ext)) = true <->
  In (toLowerCase ext) video_types.
Proof.
  intros Hext. rewrite matches_video_suffix.
  rewrite toLowerCase_app. cbn [toLowerCase append].
  change (lower ".") with dot. split.
  - intros (q & e & He & E).
    apply video_extension_type in He. destruct He as (t & Ht & ->).
    apply last_dot_unique in E as [_ E].
    + rewrite E. exact Ht.
    + rewrite has_dot_lower. exact Hext.
    + apply video_types_no_dot, Ht.
  - intros Ht. exists (toLowerCase p), (String dot (toLowerCase ext)).
    split; [|reflexivity].
    apply video_extension_type. eauto.
Qed.

Lemma matches_video_has_dot s : matches_video s = true -> has_dot s = true.
Proof.
  rewrite matches_video_suffix. intros (p & e & He & ->).
  apply video_extension_type in He. destruct He as (t & _ & ->).
  rewrite has_dot_app. simpl. apply orb_true_r.
Qed.

Lemma string_app_assoc (a b c : string) : (a ++ b) ++ c = a ++ b ++ c.
Proof.
  induction a as [|x a IH]; [reflexivity|]. simpl. rewrite IH. reflexivity.
Qed.

Lemma bool_eq_iff (a b : bool) : (a = true <-> b = true) -> a = b.
Proof. destruct a, b; intros [H1 H2]; auto; symmetry; auto. Qed.

Lemma upload_video_iff now name id :
  isVideo (mkFile id (upload_name now name)) = true <->
  In (toLowerCase (fileExt name)) video_types.
Proof.
  unfold isVideo, upload_name. cbn [file_name].
  apply matches_video_last_segment, fileExt_no_dot.
Qed.

Lemma edited_video_iff now name id :
  isVideo (mkFile id (edited_name now name)) = true <->
  In (toLowerCase (fileExt name)) video_types.
Proof.
  unfold isVideo, edited_name. cbn [file_name].
  change (stamp now ++ "_edited." ++ fileExt name)
    with (stamp now ++ "_edited" ++ "." ++ fileExt name).
  rewrite <- (matches_video_last_segment (stamp now ++ "_edited") _
                (fileExt_no_dot name)).
  rewrite string_app_assoc. reflexivity.
Qed.

(** X10: a stored upload, and a stored edit, is classified as video exactly
    when the text after the last dot of the original name (the whole name
    when it has no dot) is mp4, webm or mov, case ignored. *)
Theorem stored_name_classification (now : N) (name id : string) :
  (isVideo (mkFile id (upload_name now name)) = true <->
     In (toLowerCase (fileExt name)) video_types) /\
  (isVideo (mkFile id (edited_name now name)) = true <->
     In (toLowerCase (fileExt name)) video_types) /\
  has_dot (fileExt name) = false.
Proof.
  pose proof (fileExt_no_dot name) as Hd.
  split; [|split; [|exact Hd]].
  - unfold isVideo, upload_name. cbn [file_name].
    apply matches_video_last_segment, Hd.
  - unfold isVideo, edited_name. cbn [file_name].
    change (stamp now ++ "_edited." ++ fileExt name)
      with (stamp now ++ "_edited" ++ "." ++ fileExt name).
    rewrite <- (matches_video_last_segment (stamp now ++ "_edited") _ Hd).
    rewrite string_app_assoc. reflexivity.
Qed.

(** X11: when the original name contains a dot, the stored upload and the
    stored edit are classified as the original is. *)
Theorem stored_name_keeps_class (now : N) (name id id' : string) :
  has_dot name = true ->
  isVideo (mkFile id (upload_name now name)) = isVideo (mkFile id' name) /\
  isVideo (mkFile id (edited_name now name)) = isVideo (mkFile id' name).
Proof.
  intros Hd. destruct (fileExt_split name Hd) as (r & Hr).
  pose proof (upload_video_iff now name id) as Hu.
  pose proof (edited_video_iff now name id) as He.
  pose proof (fileExt_no_dot name) as Hn.
  assert (isVideo (mkFile id' name) = true <->
          In (toLowerCase (fileExt name)) video_types) as Ho.
  { unfold isVideo. cbn [file_name]. rewrite Hr at 1.
    apply matches_video_last_segment, Hn. }
  split; apply bool_eq_iff; tauto.
Qed.

(** X12: a name without a dot is never a video, but its upload is stored
    under the time stamp followed by a dot and the whole name, and so is
    classified as video when the name itself is mp4, webm or mov, case
    ignored. *)
Theorem dotless_name_becomes_extension (now : N) (name id : string) :
  has_dot name = false ->
  isVideo (mkFile id name) = false /\
  upload_name now name = stamp now ++ "." ++ name /\
  (isVideo (mkFile id (upload_name now name)) = true <->
     In (toLowerCase name) video_types).
Proof.
  intros Hd. split; [|split].
  - unfold isVideo. cbn [file_name].
    destruct (matches_video (toLowerCase name)) eqn:E; [|reflexivity].
    apply matches_video_has_dot in E. rewrite has_dot_lower in E. congruence.
  - unfold upload_name. rewrite (fileExt_whole name Hd). reflexivity.
  - rewrite <- (fileExt_whole name Hd) at 2.
    apply upload_video_iff.
Qed.

End StorageProperties.

Section ViewerProperties.
Import Gallery Viewer3D.
Local Open Scope string_scope.

Lemma viewer_media_loadMedia g u listing :
  viewer_media (loadMedia g u listing) =
  loadMedia g u (List.filter (fun f => negb (isVideo f)) listing).
Proof.
  unfold viewer_media, loadMedia.
  induction listing as [|f l IH]; [reflexivity|].
  cbn [map List.filter]. unfold is_image at 1, toMediaItem at 1. cbn [type].
  destruct (isVideo f); cbn [negb]; [exact IH|].
  cbn [map]. rewrite IH. reflexivity.
Qed.

Lemma In_firstn {A} (x : A) n l : In x (firstn n l) -> In x l.
Proof.
  revert l. induction n as [|n IH]; intros [|y l] H; simpl in *; try tauto.
  destruct H as [H | H]; [left; exact H|right; apply IH, H].
Qed.

(** X14: the 3D viewer receives exactly the listed files that are not videos,
    in the order of the listing; the cube takes at most six textures, each the
    public URL of such a file. *)
Theorem cube_shows_first_images (g : string -> string) (u : string)
    (listing : list FileObject) (t : string) :
  viewer_media (loadMedia g u listing) =
    loadMedia g u (List.filter (fun f => negb (isVideo f)) listing) /\
  (length (cube_of_listing g u listing) =
     Nat.min 6 (length (List.filter (fun f => negb (isVideo f)) listing))) /\
  (In t (cube_of_listing g u listing) ->
   exists f, In f listing /\ isVideo f = false /\
             t = g (u ++ "/" ++ file_name f)).
Proof.
  split; [apply viewer_media_loadMedia|]. split.
  - unfold cube_of_listing, cube_textures, imageUrls.
    rewrite viewer_media_loadMedia. unfold loadMedia.
    rewrite length_firstn, !length_map. reflexivity.
  - unfold cube_of_listing, cube_textures, imageUrls.
    rewrite viewer_media_loadMedia. unfold loadMedia.
    intros H. apply In_firstn in H.
    apply in_map_iff in H. destruct H as (m & <- & Hm).
    apply in_map_iff in Hm. destruct Hm as (f & <- & Hf).
    apply filter_In in Hf. destruct Hf as [Hf Hv].
    exists f. split; [exact Hf|]. split; [|reflexivity].
    destruct (isVideo f); [discriminate|reflexivity].
Qed.

Lemma handleNext_mod len i :
  0 <= i < len -> handleNext len i = (i + 1) mod len.
Proof.
  intros Hi. unfold handleNext. destruct (Z.eqb_spec i (len - 1)) as [-> | Hne].
  - replace (len - 1 + 1) with len by lia. rewrite Z.mod_same; lia.
  - rewrite Z.mod_small; lia.
Qed.

Lemma handleNext_iter len i k :
  0 <= i < len ->
  Nat.iter k (handleNext len) i = (i + Z.of_nat k) mod len.
Proof.
  intros Hi. induction k as [|k IH].
  - simpl. rewrite Z.add_0_r, Z.mod_small; lia.
  - rewrite Nat.iter_succ, IH, handleNext_mod by (apply Z.mod_pos_bound; lia).
    rewrite Zplus_mod_idemp_l. f_equal. lia.
Qed.

(** X15: with at least one image and an index within the list, both arrows
    keep the index within the list, each undoes the other, and pressing "next"
    as many times as there are images returns to the same image. *)
Theorem viewer_navigation_cycles (len i : Z) :
  0 <= i < len ->
  0 <= handleNext len i < len /\
  0 <= handlePrevious len i < len /\
  handlePrevious len (handleNext len i) = i /\
  handleNext len (handlePrevious len i) = i /\
  Nat.iter (Z.to_nat len) (handleNext len) i = i.
Proof.
  intros Hi.
  assert (Nat.iter (Z.to_nat len) (handleNext len) i = i) as Hcycle.
  { rewrite handleNext_iter by exact Hi.
    rewrite Z2Nat.id by lia.
    rewrite <- (Z.mul_1_l len) at 1. rewrite Z.mod_add by lia.
    apply Z.mod_small. exact Hi. }
  split; [|split; [|split; [|split; [|exact Hcycle]]]];
    unfold handleNext, handlePrevious;
    destruct (Z.eqb_spec i (len - 1)); destruct (Z.eqb_spec i 0);
    repeat match goal with
           | |- context [Z.eqb ?a ?b] => destruct (Z.eqb_spec a b)
           end; lia.
Qed.

End ViewerProperties.

Section ThemeProperties.
Import Theme.

(** X16: for a signed-in user with no update waiting, a press of the theme
    button changes nothing until its profile update returns, and then the
    theme is switched and the class [light] follows it; a second press made
    after that return restores the theme, while a second press made before it
    asks for the same theme again, so that once both updates have returned, in
    either order, the theme is the switched one; for a signed-out user a press
    changes nothing. *)
Theorem theme_press_switches_on_return (st : AuthState) (u : string)
    (n : option string) (t : theme) (c : bool) (p : list theme) :
  user st = Some u -> pending st = [] ->
  current (press st) = current st /\
  light_class (press st) = light_class st /\
  current (updateTheme_resume 0 (press st)) = other (current st) /\
  light_class (updateTheme_resume 0 (press st)) = is_light (other (current st)) /\
  pending (updateTheme_resume 0 (press st)) = [] /\
  current (updateTheme_resume 0 (press (updateTheme_resume 0 (press st)))) =
    current st /\
  current (updateTheme_resume 0 (updateTheme_resume 0 (press (press st)))) =
    other (current st) /\
  current (updateTheme_resume 0 (updateTheme_resume 1 (press (press st)))) =
    other (current st) /\
  press (mkAuth None n t c p) = mkAuth None n t c p.
Proof.
  intros Hu Hp. destruct st as [us un cur lc pend]. simpl in Hu, Hp. subst us pend.
  destruct cur; repeat split; reflexivity.
Qed.

End ThemeProperties.

Section StampProperties.
Import Gallery Storage.
Local Open Scope string_scope.

Lemma to_uint_nonnil n : N.to_uint n <> Decimal.Nil.
Proof.
  rewrite <- (DecimalN.Unsigned.of_to n) at 1.
  rewrite DecimalN.Unsigned.to_of. unfold Decimal.unorm.
  destruct (Decimal.nzhead (N.to_uint n)); discriminate.
Qed.

Lemma stamp_inj a b : stamp a = stamp b -> a = b.
Proof.
  unfold stamp. intros E.
  apply (f_equal NilZero.uint_of_string) in E.
  rewrite !NilZero.usu in E by apply to_uint_nonnil.
  injection E as E. apply DecimalN.Unsigned.to_uint_inj, E.
Qed.

Lemma string_app_inv_head (a b c : string) : a ++ b = a ++ c -> b = c.
Proof.
  induction a as [|x a IH]; simpl; intros E; [exact E|].
  injection E as E. apply IH, E.
Qed.

(** X13: two uploads are stored under the same name exactly when they carry
    the same time stamp and their names have the same text after the last
    dot: nothing else of the original name is kept. *)
Theorem upload_names_collide_iff (now now' : N) (name name' : string) :
  upload_name now name = upload_name now' name' <->
  now = now' /\ fileExt name = fileExt name'.
Proof.
  unfold upload_name. split.
  - intros E. cbn [append] in E.
    apply last_dot_unique in E as [E1 E2]; try apply fileExt_no_dot.
    split; [apply stamp_inj, E1|exact E2].
  - intros [-> ->]. reflexivity.
Qed.

End StampProperties.

Section ThemeInvariant.
Import Theme.

Lemma theme_step_in_sync e st :
  light_class st = is_light (current st) ->
  light_class (theme_handle e st) = is_light (current (theme_handle e st)) /\
  user (theme_handle e st) = user st.
Proof.
  destruct st as [[u|] n cur lc pend]; intros Hs; cbn [light_class current] in Hs;
    destruct e as [|t|i|[[n' t]|]]; cbn [theme_handle];
    unfold press, updateTheme_call, updateTheme_resume, fetchProfile;
    cbn [user username current light_class pending];
    try destruct (pend !! i); cbn [user current light_class]; split; auto.
Qed.

(** X17: once the class [light] of the document agrees with the theme, it
    agrees after any sequence of presses of the theme button, calls of
    [updateTheme], returns of their profile updates in any order, and profile
    fetches; none of these signs the user in or out. *)
Theorem theme_class_in_sync (es : list theme_event) (st : AuthState) :
  light_class st = is_light (current st) ->
  light_class (theme_run es st) = is_light (current (theme_run es st)) /\
  user (theme_run es st) = user st.
Proof.
  revert st. induction es as [|e es IH]; intros st Hs; [split; [exact Hs|reflexivity]|].
  cbn [theme_run fold_left].
  destruct (theme_step_in_sync e st Hs) as [Hs' Hu].
  destruct (IH _ Hs') as [H1 H2].
  split; [exact H1|]. rewrite <- Hu. exact H2.
Qed.

End ThemeInvariant.

Section PropertyWitnesses.
Import JS Adjust Sharpen SharpenCases Canvas ImageEditor RefPlatform Controls.
Local Open Scope string_scope.

Lemma ramp_wf : wf_ImageData ramp.
Proof.
  repeat split; try (vm_compute; congruence).
  apply Forall_forall. intros b Hb. vm_compute in Hb.
  repeat (apply elem_of_cons in Hb; destruct Hb as [-> | Hb]; [lia|]).
  apply elem_of_nil in Hb. destruct Hb.
Qed.

Lemma level_wf : wf_ImageData level.
Proof.
  repeat split; try (vm_compute; congruence).
  apply Forall_forall. intros b Hb.
  apply elem_of_replicate in Hb. lia.
Qed.

Lemma applySharpen_well_formed_witness :
  wf_ImageData (applySharpen ramp nan).
Proof.
  apply (applySharpen_well_formed ramp nan); vm_compute; congruence.
Defined.

Lemma sharpen_keeps_flat_channel_witness :
  data (applySharpen level (of_Z 37 / 100)) !! 16%nat = Some 128.
Proof.
  apply (sharpen_keeps_flat_channel level 37 1 1 0 128 level_wf).
  - vm_compute. repeat split; congruence.
  - lia.
  - lia.
  - unfold flat_at. vm_compute. repeat constructor.
Defined.

Lemma sharpen_amount_zero_interior_witness :
  data (applySharpen ramp 0) !! 17%nat = Some 119.
Proof.
  apply (sharpen_amount_zero_interior ramp 1 1 1 ramp_wf).
  - vm_compute. repeat split; congruence.
  - lia.
Defined.

Lemma render_leaves_canvas_sized_witness :
  exists cv',
    fst (applyFilters browser (grey_editor 4 4 (handleRotate (handleZoomIn initial)))) =
      mkEditor browser (Some (grey 4 4)) (Some cv') (handleRotate (handleZoomIn initial)) /\
    cv_width browser cv' = 4 /\ cv_height browser cv' = 4.
Proof.
  destruct (render_leaves_canvas_sized browser
              (grey_editor 4 4 (handleRotate (handleZoomIn initial)))
              (grey 4 4) (default_canvas browser) eq_refl eq_refl)
    as (cv' & E & Hw & Hh & _).
  exists cv'. split; [exact E|]. split; [exact Hw|exact Hh].
Defined.

Lemma save_after_render_witness :
  handleSave browser (fst (applyFilters browser (grey_editor 4 4 initial))) =
  SaveDelivered (mkBlob "image/png" (img_pixels (grey 4 4))).
Proof.
  rewrite (save_after_render browser (grey_editor 4 4 initial) (grey 4 4)
             (default_canvas browser) eq_refl eq_refl).
  vm_compute. reflexivity.
Defined.

Lemma zoom_buttons_saturate_witness :
  Nat.iter 25 zoom_in_step (zoom initial) = 3%float.
Proof.
  apply (zoom_buttons_saturate (zoom initial)). apply zr_initial.
Defined.

End PropertyWitnesses.

Section StorageWitnesses.
Import Gallery Storage Viewer3D Theme.
Local Open Scope string_scope.

Lemma stored_name_keeps_class_witness :
  isVideo (mkFile "a" (upload_name 1730000000000 "holiday.tar.MOV")) =
  isVideo (mkFile "b" "holiday.tar.MOV").
Proof.
  apply (stored_name_keeps_class 1730000000000 "holiday.tar.MOV" "a" "b").
  reflexivity.
Defined.

Lemma dotless_name_becomes_extension_witness :
  isVideo (mkFile "a" "mov") = false /\ upload_name 7 "mov" = "7.mov".
Proof.
  destruct (dotless_name_becomes_extension 7 "mov" "a" eq_refl) as (H1 & H2 & _).
  split; [exact H1|exact H2].
Defined.

Lemma viewer_navigation_cycles_witness :
  handlePrevious 3 (handleNext 3 2) = 2.
Proof.
  apply (viewer_navigation_cycles 3 2). lia.
Defined.

Lemma theme_press_switches_on_return_witness :
  current (updateTheme_resume 0 (press (mkAuth (Some "u") (Some "n") dark false []))) =
    light /\
  current (updateTheme_resume 0 (updateTheme_resume 0
             (press (press (mkAuth (Some "u") (Some "n") dark false []))))) = light.
Proof.
  destruct (theme_press_switches_on_return
              (mkAuth (Some "u") (Some "n") dark false []) "u" None dark false []
              eq_refl eq_refl)
    as (_ & _ & H1 & _ & _ & _ & H2 & _).
  split; [exact H1|exact H2].
Defined.

Lemma theme_class_in_sync_witness :
  light_class
    (theme_run [PressToggle; PressToggle; Resume 1; Fetch (Some ("n", dark));
                Update light; Resume 0; Resume 0]
               (mkAuth (Some "u") None dark false [])) = true.
Proof.
  apply (theme_class_in_sync
           [PressToggle; PressToggle; Resume 1; Fetch (Some ("n", dark));
            Update light; Resume 0; Resume 0]
           (mkAuth (Some "u") None dark false [])).
  reflexivity.
Defined.

End StorageWitnesses.
